(** * OptySys backend: organization store and authorization middleware

    A shallow embedding of
      - backend/app/database/organizations.py  (class [Organizations])
      - backend/app/utils/middlewares.py
    together with the properties of the specification that concern them.

    The document store is a record of three collections, each a finite map
    from the document's [_id] to the document.  Store calls run in a state
    and exception monad over a [World]: the data, the number of driver
    sessions that are started and not ended, the scheduled background
    tasks, and the state of the connection to the server. *)

From Stdlib Require Import ZArith String Ascii List Bool Lia.
From stdpp Require Import base option gmap strings list fin_maps.

Local Open Scope string_scope.
Local Open Scope Z_scope.

(** ** Python values and exceptions *)

Module Py.

(** [e.args[0]] of an exception raised as [Exception(x)]: the source raises
    either a message or a dict with the keys "status_code" and "detail". *)
Inductive exc_arg : Type :=
| ArgStr (s : string)
| ArgDict (status_code : option Z) (detail : option string).

(** The exceptions of the two modules, by type and arguments.  An exception
    raised while another is handled also carries that one, as [__cause__]
    after [raise ... from e]; the value [chained] below holds both, and is
    what authentication_handler gives its caller.  The store operations
    chain their HTTPException in the same way; what is stated of them
    concerns its status and detail, and their model gives the exception
    alone. *)
Inductive exn : Type :=
| Exception (arg : exc_arg)
| HTTPException (status_code : Z) (detail : string)
| ConnectionFailure (msg : string)
| DuplicateKeyError (msg : string)
| AttributeError (msg : string)
| UnboundLocalError (var : string)
| IndexError (msg : string)
| KeyError (key : string)
| TypeError (msg : string).

(** [raise exception from cause]: the exception that is raised, and the
    error it carries as [__cause__]. *)
Record chained : Type := raise_from { exception : exn; cause : exn }.

(** A pure computation that returns or raises. *)
Definition result (A : Type) : Type := (exn + A)%type.

#[global] Instance result_ret : MRet result := λ A a, inr a.
#[global] Instance result_bind : MBind result := λ A B k r,
  match r with
  | inr a => k a
  | inl e => inl e
  end.

(** Status codes of [fastapi.status]. *)
Definition HTTP_400_BAD_REQUEST : Z := 400.
Definition HTTP_401_UNAUTHORIZED : Z := 401.
Definition HTTP_404_NOT_FOUND : Z := 404.
Definition HTTP_500_INTERNAL_SERVER_ERROR : Z := 500.

(** [s.split(sep)] for a separator of one character: n occurrences of the
    separator give n+1 pieces, empty pieces included. *)
Fixpoint split (sep : ascii) (s : string) : list string :=
  match s with
  | EmptyString => [EmptyString]
  | String c rest =>
      if Ascii.eqb c sep then EmptyString :: split sep rest
      else match split sep rest with
           | piece :: pieces => String c piece :: pieces
           | [] => [String c EmptyString]
           end
  end.

(** [s.startswith(p)] *)
Fixpoint startswith (s p : string) : bool :=
  match p, s with
  | EmptyString, _ => true
  | String b p', String a s' => Ascii.eqb a b && startswith s' p'
  | String _ _, EmptyString => false
  end.

(** [s.endswith(p)]: some suffix of [s] is [p]. *)
Fixpoint endswith (s p : string) : bool :=
  String.eqb s p ||
  match s with
  | EmptyString => false
  | String _ rest => endswith rest p
  end.

(** [e.args[0]].  The drivers and the interpreter raise with a message;
    [HTTPException] is raised with keyword arguments only, which leaves
    [args] empty. *)
Definition args0 (e : exn) : result exc_arg :=
  match e with
  | Exception arg => inr arg
  | HTTPException _ _ => inl (IndexError "tuple index out of range")
  | ConnectionFailure msg | DuplicateKeyError msg | AttributeError msg
  | UnboundLocalError msg | IndexError msg | KeyError msg | TypeError msg =>
      inr (ArgStr msg)
  end.

(** [l[i]] on a list: [IndexError] out of range. *)
Definition index {A} (l : list A) (i : nat) : result A :=
  match l !! i with
  | Some x => inr x
  | None => inl (IndexError "list index out of range")
  end.

End Py.

(** ** Documents *)

Module Org.
(** Modelled from the spec: the Organization document (app.models.organizations,
    outside the modules embedded here) has a unique name, its creator, the
    admins and members, the ordered opportunity ids and the [private] flag.
    The [_id] is the key of the collection. *)
Record t : Type := Build {
  name : string;
  description : string;
  created_by : string;
  admins : list string;
  members : list string;
  opportunities : list string;
  private : bool
}.
End Org.

Module User.
(** Modelled from the spec: the User document, owned by app.database.users,
    of which the organization store only touches [organizations]. *)
Record t : Type := Build {
  organizations : list string
}.
End User.

Module Opp.
(** Modelled from the spec: the Opportunity document (app.models.opportunities);
    the validated payload fields are kept as one value. *)
Record t : Type := Build {
  organization_id : string;
  created_by : string;
  payload : string
}.
End Opp.

(** Modelled from the spec: the request payload of create_organization
    (app.schemas.organizations.OrganizationBaseSchema). *)
Record OrganizationBaseSchema : Type := {
  schema_name : string;
  schema_description : string;
  schema_private : bool
}.

(** ** The document store *)

Module Mongo.
Import Py.

(** [cls.db]: the collections "Organizations", "Users", "Opportunities". *)
Record Store : Type := {
  Organizations_docs : gmap string Org.t;
  Users_docs : gmap string User.t;
  Opportunities_docs : gmap string Opp.t
}.

(** [outage = Some n]: the connection is lost after [n] more calls to the
    server; [None]: it stays up. *)
Record World : Type := {
  db : Store;
  live_sessions : nat;
  outage : option nat;
  background_tasks : list (string * (string * Opp.t))
}.

Definition set_db (s : Store) (w : World) : World :=
  {| db := s; live_sessions := live_sessions w; outage := outage w;
     background_tasks := background_tasks w |}.

Definition set_live_sessions (n : nat) (w : World) : World :=
  {| db := db w; live_sessions := n; outage := outage w;
     background_tasks := background_tasks w |}.

Definition set_outage (o : option nat) (w : World) : World :=
  {| db := db w; live_sessions := live_sessions w; outage := o;
     background_tasks := background_tasks w |}.

Definition set_background_tasks (l : list (string * (string * Opp.t)))
    (w : World) : World :=
  {| db := db w; live_sessions := live_sessions w; outage := outage w;
     background_tasks := l |}.

(** Computations that read and write the world and may raise. *)
Definition M (A : Type) : Type := World → (exn + A) * World.

Definition ret {A} (a : A) : M A := λ w, (inr a, w).
Definition raise {A} (e : exn) : M A := λ w, (inl e, w).
Definition bind {A B} (c : M A) (k : A → M B) : M B :=
  λ w, match c w with
       | (inr a, w') => k a w'
       | (inl e, w') => (inl e, w')
       end.

#[global] Instance M_ret : MRet M := @ret.
#[global] Instance M_bind : MBind M := λ A B k c, bind c k.

Definition get : M World := λ w, (inr w, w).
Definition modify (f : World → World) : M unit := λ w, (inr tt, f w).
Definition lift {A} (r : result A) : M A := λ w, (r, w).

(** [try: body except Exception as e: handler(e)] *)
Definition try_except {A} (body : M A) (handler : exn → M A) : M A :=
  λ w, match body w with
       | (inr a, w') => (inr a, w')
       | (inl e, w') => handler e w'
       end.

(** [try: body finally: fin].  An exception of [fin] replaces the outcome
    of [body]. *)
Definition try_finally {A} (body : M A) (fin : M unit) : M A :=
  λ w, match body w with
       | (r, w') =>
           match fin w' with
           | (inr _, w'') => (r, w'')
           | (inl e, w'') => (inl e, w'')
           end
       end.

(** Every call to the server goes through the connection. *)
Definition roundtrip : M unit :=
  λ w, match outage w with
       | None => (inr tt, w)
       | Some (S n) => (inr tt, set_outage (Some n) w)
       | Some O => (inl (ConnectionFailure "connection closed"), w)
       end.

(** *** Collections *)

(** A collection of the database: where its documents live in the store,
    and its unique indexes besides [_id] ([violates_index d m]: inserting
    [d] into [m] breaks one of them). *)
Record Collection (D : Type) : Type := {
  docs : Store → gmap string D;
  put : gmap string D → Store → Store;
  violates_index : D → gmap string D → bool
}.
Arguments docs {D} _ _.
Arguments put {D} _ _ _.
Arguments violates_index {D} _ _ _.

(** [collection.find_one({"_id": k, ...}, session=session)]: the document
    with this [_id] if it meets the other conditions of the filter, else
    [None]. *)
Definition find_one {D} (c : Collection D) (k : string) (cond : D → bool) :
    M (option D) :=
  roundtrip ;;
  w ← get ;
  mret (d ← docs c (db w) !! k ; if cond d then Some d else None).

(** [collection.insert_one(doc, session=session)], the document carrying
    its [_id]; the result is [inserted_id]. *)
Definition insert_one {D} (c : Collection D) (k : string) (d : D) : M string :=
  roundtrip ;;
  w ← get ;
  let m := docs c (db w) in
  if bool_decide (is_Some (m !! k)) || violates_index c d m
  then raise (DuplicateKeyError "E11000 duplicate key error collection")
  else modify (λ w, set_db (put c (<[k := d]> m) (db w)) w) ;; mret k.

(** [collection.update_one({"_id": k}, operator, session=session)]; the
    operator gives [None] on a document it would leave as it is.  The
    result is [modified_count]. *)
Definition update_one {D} (c : Collection D) (k : string)
    (operator : D → option D) : M nat :=
  roundtrip ;;
  w ← get ;
  let m := docs c (db w) in
  match m !! k ≫= operator with
  | Some d' => modify (λ w, set_db (put c (<[k := d']> m) (db w)) w) ;; mret 1%nat
  | None => mret 0%nat
  end.

(** The documents [update_many] changes: those selected by the filter on
    [_id] that the operator modifies. *)
Definition modified {D} (sel : string → bool) (operator : D → option D)
    (m : gmap string D) : gmap string D :=
  map_imap (λ k d, if sel k then operator d else None) m.

(** [collection.update_many({"_id": {"$in": ...}}, operator, session=session)];
    the result is [modified_count]. *)
Definition update_many {D} (c : Collection D) (sel : string → bool)
    (operator : D → option D) : M nat :=
  roundtrip ;;
  w ← get ;
  let m := docs c (db w) in
  let changed := modified sel operator m in
  modify (λ w, set_db (put c (changed ∪ m) (db w)) w) ;;
  mret (size changed).

(** [collection.delete_one({"_id": k}, session=session)]; the result is
    [deleted_count]. *)
Definition delete_one {D} (c : Collection D) (k : string) : M nat :=
  roundtrip ;;
  w ← get ;
  let m := docs c (db w) in
  match m !! k with
  | Some _ => modify (λ w, set_db (put c (delete k m) (db w)) w) ;; mret 1%nat
  | None => mret 0%nat
  end.

(** [{"$push": {field: v}}] on the array of a document: always a change. *)
Definition push (v : string) (l : list string) : option (list string) :=
  Some (l ++ [v])%list.

(** [{"$pull": {field: v}}]: every occurrence of [v] goes; no change when
    there is none. *)
Definition pull (v : string) (l : list string) : option (list string) :=
  if bool_decide (v ∈ l) then Some (filter (λ x, x ≠ v) l) else None.

(** *** Sessions and transactions *)

Inductive ClientSession : Type := Session.

(** [await client.start_session()]: the client hands out a session from its
    own pool, without a call to the server; a connection that is down shows
    at the first operation that uses the session. *)
Definition start_session : M ClientSession :=
  modify (λ w, set_live_sessions (S (live_sessions w)) w) ;;
  mret Session.

(** [session.end_session()] *)
Definition end_session (s : ClientSession) : M unit :=
  modify (λ w, set_live_sessions (pred (live_sessions w)) w).

(** [async with session.start_transaction(): body].  The writes of the
    body are committed when the block is left normally and discarded when
    it is left by an exception; so are they when the commit cannot reach
    the server. *)
Definition start_transaction {A} (s : ClientSession) (body : M A) : M A :=
  λ w, match body w with
       | (inr a, w') =>
           match roundtrip w' with
           | (inr _, w'') => (inr a, w'')
           | (inl e, w'') => (inl e, set_db (db w) w'')
           end
       | (inl e, w') => (inl e, set_db (db w) w')
       end.

(** Reading a local variable that an earlier statement of the [try] block
    was to assign. *)
Definition local {A} (name : string) (v : option A) : M A :=
  match v with
  | Some a => mret a
  | None => raise (UnboundLocalError name)
  end.

(** [try: x = acquire; body  except ...: handler  finally: fin], where
    [fin] may read [x]. *)
Definition try_assign {S A} (acquire : M S) (body : S → M A)
    (handler : exn → M A) (fin : option S → M unit) : M A :=
  λ w, match acquire w with
       | (inr s, w') =>
           try_finally (try_except (body s) handler) (fin (Some s)) w'
       | (inl e, w') =>
           try_finally (handler e) (fin None) w'
       end.

End Mongo.

(** ** backend/app/database/organizations.py *)

Module Organizations.
Import Py Mongo.

(** Modelled from the spec: the unique constraint on the [name] of an
    organization, which the database setup (outside the modules embedded
    here) declares and the [DuplicateKeyError] clause of
    create_organization answers. *)
Definition name_index (d : Org.t) (m : gmap string Org.t) : bool :=
  bool_decide (map_Exists (λ _ o, Org.name o = Org.name d) m).

(** [cls.db[cls.name]], the collection "Organizations". *)
Definition name : Collection Org.t := {|
  docs := Organizations_docs;
  put := λ m s, {| Organizations_docs := m; Users_docs := Users_docs s;
                   Opportunities_docs := Opportunities_docs s |};
  violates_index := name_index
|}.

(** [cls.db[cls.users]], the collection "Users". *)
Definition users : Collection User.t := {|
  docs := Users_docs;
  put := λ m s, {| Organizations_docs := Organizations_docs s; Users_docs := m;
                   Opportunities_docs := Opportunities_docs s |};
  violates_index := λ _ _, false
|}.

(** [cls.db[cls.opportunities]], the collection "Opportunities". *)
Definition opportunities : Collection Opp.t := {|
  docs := Opportunities_docs;
  put := λ m s, {| Organizations_docs := Organizations_docs s;
                   Users_docs := Users_docs s; Opportunities_docs := m |};
  violates_index := λ _ _, false
|}.

(** The update operators of the module. *)
Definition push_organizations (v : string) (u : User.t) : option User.t :=
  l ← push v (User.organizations u) ; Some {| User.organizations := l |}.

Definition pull_organizations (v : string) (u : User.t) : option User.t :=
  l ← pull v (User.organizations u) ; Some {| User.organizations := l |}.

Definition push_members (v : string) (o : Org.t) : option Org.t :=
  l ← push v (Org.members o) ;
  Some (Org.Build (Org.name o) (Org.description o) (Org.created_by o)
          (Org.admins o) l (Org.opportunities o) (Org.private o)).

Definition push_opportunities (v : string) (o : Org.t) : option Org.t :=
  l ← push v (Org.opportunities o) ;
  Some (Org.Build (Org.name o) (Org.description o) (Org.created_by o)
          (Org.admins o) (Org.members o) l (Org.private o)).

(** The responses of app.utils.responses and their bodies. *)
Inductive Body : Type :=
| Detail (detail : string)
| OrganizationBody (_id : string) (organization : Org.t)
| OpportunityBody (_id : string) (opportunity : Opp.t).

Inductive Response : Type :=
| Created (body : Body)
| OK (body : Body).

(** [raise Exception({"status_code": c, "detail": d})] *)
Definition raise_status {A} (c : Z) (d : string) : M A :=
  raise (Exception (ArgDict (Some c) (Some d))).

(** The clause [except ConnectionFailure] of every operation. *)
Definition except_ConnectionFailure {A} : M A :=
  raise (HTTPException HTTP_500_INTERNAL_SERVER_ERROR
           "Error: Database connection error.").

(** The clause [except Exception as e] of every operation:
    [e.args[0].get("status_code", 400)], [e.args[0].get("detail", ...)]. *)
Definition except_Exception {A} (e : exn) : M A :=
  match args0 e with
  | inr (ArgDict status_code detail) =>
      raise (HTTPException (default 400 status_code)
               (default "Error: Bad Request" detail))
  | inr (ArgStr _) =>
      raise (AttributeError "'str' object has no attribute 'get'")
  | inl e' => raise e'
  end.

(** The [except] clauses of create_organization, in their order. *)
Definition create_organization_handlers {A} (e : exn) : M A :=
  match e with
  | ConnectionFailure _ => except_ConnectionFailure
  | DuplicateKeyError _ =>
      raise (HTTPException HTTP_400_BAD_REQUEST
               "Error: Organization already exists with this name.")
  | _ => except_Exception e
  end.

(** The [except] clauses of the other operations. *)
Definition handlers {A} (e : exn) : M A :=
  match e with
  | ConnectionFailure _ => except_ConnectionFailure
  | _ => except_Exception e
  end.

(** Modelled from the spec: the process-wide, lazily initialised connection
    (app.utils.database.MongoDBConnector, outside the modules embedded
    here); connecting and closing it leave data and sessions as they are. *)
Definition initiate_db : M unit := mret tt.

(** Modelled from the spec: [await MongoDBConnector().close()] on the same
    connection. *)
Definition MongoDBConnector_close : M unit := mret tt.

(** [finally: session.end_session(); await MongoDBConnector().close()] *)
Definition finally_end_session (session : option ClientSession) : M unit :=
  s ← local "session" session ;
  end_session s ;;
  MongoDBConnector_close.

Section Operations.

(** app.utils.validators.validate_object_id_fields, a collaborator outside
    the modules embedded here: it raises, or returns a value of this truth. *)
Variable validate_object_id_fields : list string → result bool.

(** The block under [async with session.start_transaction()] of
    create_organization.  [new_id] is the [_id] that the document model
    gives the new organization. *)
Definition create_organization_transaction (current_user : string)
    (organization : OrganizationBaseSchema) (new_id : string) : M Response :=
  let organization :=
    Org.Build (schema_name organization) (schema_description organization)
      current_user [current_user] [current_user] []
      (schema_private organization) in
  result ← insert_one name new_id organization ;
  (* [if result:] holds of every InsertOneResult *)
  res ← update_one users current_user (push_organizations result) ;
  (if Nat.eqb res 0
   then raise_status HTTP_400_BAD_REQUEST "Error: Unable to update user"
   else mret tt) ;;
  mret (Created (OrganizationBody new_id organization)).

Definition create_organization (current_user : string)
    (organization : OrganizationBaseSchema) (new_id : string) : M Response :=
  initiate_db ;;
  _ ← lift (validate_object_id_fields [current_user]) ;
  try_assign start_session
    (λ session, start_transaction session
       (create_organization_transaction current_user organization new_id))
    create_organization_handlers
    finally_end_session.

(** The block under [async with] of create_opportunity.  [new_id] is the
    [_id] that the document model gives the new opportunity; the world
    carries [background_tasks]. *)
Definition create_opportunity_transaction (org_id : string)
    (opportunity : Opp.t) (new_id : string) : M Response :=
  result ← insert_one opportunities new_id opportunity ;
  res ← update_one name org_id (push_opportunities result) ;
  (if Nat.eqb res 0
   then raise_status HTTP_400_BAD_REQUEST "Error: Unable to update organization"
   else mret tt) ;;
  modify (λ w, set_background_tasks
                 (background_tasks w ++ [(org_id, (new_id, opportunity))])%list
                 w) ;;
  mret (Created (OpportunityBody new_id opportunity)).

Definition create_opportunity (current_user org_id : string)
    (opportunity : string) (new_id : string) : M Response :=
  initiate_db ;;
  _ ← lift (validate_object_id_fields [current_user; org_id]) ;
  let opportunity := Opp.Build org_id current_user opportunity in
  try_assign start_session
    (λ session, start_transaction session
       (create_opportunity_transaction org_id opportunity new_id))
    handlers
    finally_end_session.

(** The [try] block of is_authorized_user. *)
Definition is_authorized_user_query (org_id user_id : string) : M unit :=
  organization ← find_one name org_id
                   (λ o, bool_decide (user_id ∈ Org.admins o)) ;
  match organization with
  | None => raise_status HTTP_401_UNAUTHORIZED "Error: Unauthorized user."
  | Some _ => mret tt
  end.

Definition is_authorized_user (org_id user_id : string) : M unit :=
  initiate_db ;;
  _ ← lift (validate_object_id_fields [org_id; user_id]) ;
  try_finally
    (try_except (is_authorized_user_query org_id user_id) handlers)
    MongoDBConnector_close.

(** The block under [async with] of add_member. *)
Definition add_member_transaction (current_user org_id : string) :
    M Response :=
  organization ← find_one name org_id (λ _, true) ;
  match organization with
  | None =>
      raise_status HTTP_404_NOT_FOUND "Error: Organization not found."
  | Some organization =>
      if bool_decide (current_user ∈ Org.members organization)
      then raise_status HTTP_400_BAD_REQUEST
             "Error: User is already a member of the organization."
      else if Org.private organization
      then raise_status HTTP_401_UNAUTHORIZED "Error: Organization is private."
      else
        res ← update_one name org_id (push_members current_user) ;
        (if Nat.eqb res 0
         then raise_status HTTP_400_BAD_REQUEST "Error: Unable to update user"
         else mret tt) ;;
        res ← update_one users current_user (push_organizations org_id) ;
        (if Nat.eqb res 0
         then raise_status HTTP_400_BAD_REQUEST "Error: Unable to update user."
         else mret tt) ;;
        mret (Created (Detail "Success: User added to the organization."))
  end.

Definition add_member (current_user org_id : string) : M Response :=
  initiate_db ;;
  _ ← lift (validate_object_id_fields [org_id; current_user]) ;
  try_assign start_session
    (λ session, start_transaction session
       (add_member_transaction current_user org_id))
    handlers
    finally_end_session.

(** The block under [async with] of delete_organization. *)
Definition delete_organization_transaction (current_user org_id : string) :
    M Response :=
  organization ← find_one name org_id (λ _, true) ;
  match organization with
  | None =>
      raise_status HTTP_401_UNAUTHORIZED "Error: Organization not found."
  | Some organization =>
      if negb (String.eqb current_user (Org.created_by organization))
      then raise_status HTTP_401_UNAUTHORIZED "Error: Unauthorized user."
      else
        let members := Org.members organization in
        res ← delete_one name org_id ;
        (if Nat.eqb res 0
         then raise_status HTTP_400_BAD_REQUEST
                "Error: Unable to delete organization."
         else mret tt) ;;
        res ← update_many users (λ k, bool_decide (k ∈ members))
                (pull_organizations org_id) ;
        (if Nat.eqb res 0
         then raise_status HTTP_400_BAD_REQUEST "Error: Unable to update user."
         else mret tt) ;;
        mret (OK (Detail "Success: Organization deleted Successfully."))
  end.

(** This operation has no [finally] clause. *)
Definition delete_organization (current_user org_id : string) : M Response :=
  initiate_db ;;
  _ ← lift (validate_object_id_fields [org_id; current_user]) ;
  try_except
    (session ← start_session ;
     start_transaction session
       (delete_organization_transaction current_user org_id))
    handlers.

End Operations.

End Organizations.

(** ** backend/app/utils/middlewares.py *)

Module Middlewares.
Import Py Mongo.

(** The dicts [{"path": p, "method": m}] as pairs. *)
Definition PUBLIC_ENDPOINTS : list (string * string) :=
  [ ("/docs", "GET");
    ("/openapi.json", "GET");
    ("/analytics/health", "GET");
    ("/auth/register", "POST");
    ("/auth/verify", "POST");
    ("/auth/login", "POST") ].

Definition UNAUTHORIZED_ENDPOINTS : list (string * string) :=
  [ ("/docs", "GET");
    ("/openapi.json", "GET");
    ("/analytics/health", "GET");
    ("/auth/register", "POST");
    ("/auth/verify", "POST");
    ("/auth/login", "POST");
    ("/users", "POST") ].

(** The dicts [{"path": p}]. *)
Definition WEB_SOCKET_ENDPOINTS : list string := [ "/ws" ].

Definition is_public_endpoint (request_path request_method : string) : bool :=
  bool_decide ((request_path, request_method) ∈ PUBLIC_ENDPOINTS).

Definition is_unauthorized_endpoint (request_path request_method : string) : bool :=
  bool_decide ((request_path, request_method) ∈ UNAUTHORIZED_ENDPOINTS).

Definition is_web_socket_endpoint (path : string) : bool :=
  bool_decide (path ∈ WEB_SOCKET_ENDPOINTS).

Definition please_login : exn :=
  Exception (ArgStr "Please login to access this resource.").

(** The condition of the first [if] of check_authorization after the
    login check. *)
Definition activation_route (request_path request_method : string) : bool :=
  (String.eqb request_method "POST" && String.eqb request_path "/organizations")
  || (String.eqb request_path "/ws" && String.eqb request_method "GET").

(** The condition of its second [if]. *)
Definition opportunities_route (request_path request_method : string) : bool :=
  String.eqb request_method "POST"
  && (startswith request_path "/organizations"
      && endswith request_path "/opportunities").

Section Gate.

(** Collaborators outside the modules embedded here: app.utils.validators,
    app.database.users and app.utils.jwt_handler.  The decoded token is a
    dict from claim names to [None] or a string. *)
Variable validate_object_id_fields : list string → result bool.
Variable Users_is_authorized_user : string → M unit.
Variable JwtTokenHandler_decode : string → result (gmap string (option string)).

Definition check_authorization (current_user : option string)
    (request_path request_method : string) : M unit :=
  if is_unauthorized_endpoint request_path request_method then mret tt
  else
    match current_user with
    | None => raise please_login
    | Some current_user =>
        (if activation_route request_path request_method
         then try_except (Users_is_authorized_user current_user)
                (λ _, raise (Exception (ArgStr
                   "User is not authorized to access this resource, please activate your account.")))
         else mret tt) ;;
        (if opportunities_route request_path request_method
         then try_except
                (organization_id ← lift (index (split "/" request_path) 2) ;
                 Organizations.is_authorized_user validate_object_id_fields
                   organization_id current_user)
                (λ _, raise (Exception (ArgStr
                   "User is not authorized to access this resource.")))
         else mret tt) ;;
        mret tt
    end.

(** The [try] block of authentication_handler.  [access_token] is [None]
    when the header is missing. *)
Definition authentication_handler_block (access_token : option string) :
    result string :=
  access_token ←
    match access_token with
    | Some t => inr t
    | None =>
        inl (AttributeError "'NoneType' object has no attribute 'split'")
    end ;
  bearer_token ← index (split " " access_token) 1 ;
  data ← JwtTokenHandler_decode bearer_token ;
  current_user ←
    match data !! "user_id" with
    | Some v => inr v
    | None => inl (KeyError "user_id")
    end ;
  match current_user with
  | None => inl please_login
  | Some current_user =>
      invalid ← validate_object_id_fields [current_user] ;
      if invalid : bool then inl please_login else inr current_user
  end.

(** [except Exception as e: raise Exception("Please login ...") from e]:
    the caller is given the new exception with [e] as its [__cause__]. *)
Definition authentication_handler (access_token : option string) :
    chained + string :=
  match authentication_handler_block access_token with
  | inr current_user => inr current_user
  | inl e => inl (raise_from please_login e)
  end.

End Gate.

End Middlewares.

(** ** backend/app/routers/ws.py *)

Module Ws.
Import Py.

(** What [await websocket.receive_text()] can raise: WebSocketDisconnect,
    another Exception, or an exception that is no Exception (the
    cancellation of the task). *)
Inductive raised : Type :=
| WebSocketDisconnect (code : Z)
| OtherException (e : exn)
| Cancelled.

(** What one [await websocket.receive_text()] does. *)
Inductive received : Type :=
| Text (data : string)
| Raises (r : raised).

(** The calls on web_socket_service, each with the websocket of the
    endpoint. *)
Inductive service_call : Type :=
| connect (current_user : string)
| disconnect (current_user : string).

(** Where the coroutine stands once the given receives are used up: it
    returned, an Exception or the cancellation left it, or it awaits the
    next receive. *)
Inductive outcome : Type :=
| Returned
| Raised (e : exn)
| RaisedCancelled
| Receiving.

(** [while True: await websocket.receive_text()]: what the first receive
    that raises has raised, or [None] while every receive returned a text. *)
Fixpoint receive_loop (incoming : list received) : option raised :=
  match incoming with
  | [] => None
  | Text _ :: rest => receive_loop rest
  | Raises r :: _ => Some r
  end.

Section Endpoint.

(** app.services.ws, a collaborator outside the modules embedded here:
    [connect] and [disconnect] return, or raise this exception. *)
Variable connect_raises : string → option exn.
Variable disconnect_raises : string → option exn.

(** The body of both [except] clauses,
    [await web_socket_service.disconnect(current_user, websocket)]: the calls
    made by then, and how the coroutine ends. *)
Definition on_exception (current_user : string) :
    list service_call * outcome :=
  ([connect current_user; disconnect current_user],
   match disconnect_raises current_user with
   | Some e => Raised e
   | None => Returned
   end).

(** The calls made on the service and the state of the coroutine, for the
    scope of the websocket and what its receives do. *)
Definition websocket_endpoint (scope : gmap string string)
    (incoming : list received) : list service_call * outcome :=
  match scope !! "current_user" with
  | None => ([], Raised (KeyError "current_user"))
  | Some current_user =>
      match connect_raises current_user with
      | Some e => ([connect current_user], Raised e)
      | None =>
          match receive_loop incoming with
          | None => ([connect current_user], Receiving)
          | Some (WebSocketDisconnect _) => on_exception current_user
          | Some (OtherException _) => on_exception current_user
          | Some Cancelled => ([connect current_user], RaisedCancelled)
          end
      end
  end.

End Endpoint.

End Ws.

(** * Vocabulary of the properties *)

Import Py Mongo.

(** A computation that ends with as many live sessions as it started with. *)
Definition balanced {A} (c : M A) : Prop :=
  ∀ w, live_sessions (snd (c w)) = live_sessions w.

(** A computation whose failure leaves the data as it found them. *)
Definition atomic {A} (c : M A) : Prop :=
  ∀ w e w', c w = (inl e, w') → db w' = db w.

(** A computation that never writes data. *)
Definition readonly {A} (c : M A) : Prop :=
  ∀ w r w', c w = (r, w') → db w' = db w.

(** A handler that re-raises and touches nothing. *)
Definition reraising {A} (h : exn → M A) : Prop :=
  ∀ e w, ∃ e', h e w = (inl e', w).

(** The [modified_count] of the cleanup of delete_organization on these
    users: the records of members from which the organization is pulled. *)
Definition cleanup_count (org_id : string) (members : list string)
    (us : gmap string User.t) : nat :=
  size (modified (λ k, bool_decide (k ∈ members))
          (Organizations.pull_organizations org_id) us).

(** No member's user record lists the organization. *)
Definition cleanup_modifies_nothing (org_id : string) (members : list string)
    (us : gmap string User.t) : Prop :=
  ∀ k u, k ∈ members → us !! k = Some u → org_id ∉ User.organizations u.

(** The document that create_organization builds. *)
Definition new_organization (owner : string) (payload : OrganizationBaseSchema) :
    Org.t :=
  Org.Build (schema_name payload) (schema_description payload) owner
    [owner] [owner] [] (schema_private payload).

(** No organization of the collection has this name. *)
Definition name_free (n : string) (m : gmap string Org.t) : Prop :=
  ∀ k o, m !! k = Some o → Org.name o ≠ n.

(** [c in s] for a character. *)
Fixpoint has_char (c : ascii) (s : string) : bool :=
  match s with
  | EmptyString => false
  | String a rest => Ascii.eqb a c || has_char c rest
  end.

(** The paths [/organizations/{id}/opportunities], for any text as [{id}]. *)
Definition opportunities_shape (request_path : string) : Prop :=
  ∃ id, request_path = "/organizations/" +:+ id +:+ "/opportunities".

(** ** A scenario *)

(** A validator that takes every id. *)
Definition accepting : list string → result bool := λ _, inr false.

(** U1 created Acme and the private Vault; U3 is an admin and member of
    Acme; U2 belongs to nothing. *)
Definition acme : Org.t :=
  Org.Build "Acme" "" "U1" ["U1"; "U3"] ["U1"; "U3"] [] false.

Definition vault : Org.t :=
  Org.Build "Vault" "" "U1" ["U1"] ["U1"] [] true.

Definition world_acme : World :=
  {| db := {| Organizations_docs := {[ "O1" := acme; "O2" := vault ]};
              Users_docs := {[ "U1" := User.Build ["O1"; "O2"];
                               "U2" := User.Build [];
                               "U3" := User.Build ["O1"] ]};
              Opportunities_docs := ∅ |};
     live_sessions := 0;
     outage := None;
     background_tasks := [] |}.

(** A store in which no member's record lists Acme. *)
Definition world_stale : World :=
  {| db := {| Organizations_docs := {[ "O1" := acme ]};
              Users_docs := {[ "U1" := User.Build []; "U2" := User.Build ["O1"] ]};
              Opportunities_docs := ∅ |};
     live_sessions := 0;
     outage := None;
     background_tasks := [] |}.

(** A token codec that knows one token. *)
Definition decode_one : string → result (gmap string (option string)) :=
  λ t, if String.eqb t "good" then inr {[ "user_id" := Some "U1" ]}
       else inl (Exception (ArgStr "Signature verification failed")).

(** ** Stores and the calls that change them *)

(** An organization with other members, or other opportunities. *)
Definition with_members (o : Org.t) (l : list string) : Org.t :=
  Org.Build (Org.name o) (Org.description o) (Org.created_by o) (Org.admins o)
    l (Org.opportunities o) (Org.private o).

Definition with_opportunities (o : Org.t) (l : list string) : Org.t :=
  Org.Build (Org.name o) (Org.description o) (Org.created_by o) (Org.admins o)
    (Org.members o) l (Org.private o).

(** The user records after the cleanup of delete_organization. *)
Definition cleaned_users (org_id : string) (members : list string)
    (us : gmap string User.t) : gmap string User.t :=
  modified (λ k, bool_decide (k ∈ members))
    (Organizations.pull_organizations org_id) us ∪ us.

(** What one call of the organization store can make of the data: nothing,
    or the committed writes of one of its four transactions. *)
Inductive store_step (s : Store) : Store → Prop :=
| step_unchanged : store_step s s
| step_created owner payload new_id u :
    Organizations_docs s !! new_id = None →
    Users_docs s !! owner = Some u →
    store_step s
      {| Organizations_docs :=
           <[new_id := new_organization owner payload]> (Organizations_docs s);
         Users_docs :=
           <[owner := User.Build (User.organizations u ++ [new_id])%list]>
             (Users_docs s);
         Opportunities_docs := Opportunities_docs s |}
| step_opportunity current_user org_id opportunity new_id o :
    Opportunities_docs s !! new_id = None →
    Organizations_docs s !! org_id = Some o →
    store_step s
      {| Organizations_docs :=
           <[org_id := with_opportunities o (Org.opportunities o ++ [new_id])%list]>
             (Organizations_docs s);
         Users_docs := Users_docs s;
         Opportunities_docs :=
           <[new_id := Opp.Build org_id current_user opportunity]>
             (Opportunities_docs s) |}
| step_joined current_user org_id o u :
    Organizations_docs s !! org_id = Some o →
    current_user ∉ Org.members o →
    Org.private o = false →
    Users_docs s !! current_user = Some u →
    store_step s
      {| Organizations_docs :=
           <[org_id := with_members o (Org.members o ++ [current_user])%list]>
             (Organizations_docs s);
         Users_docs :=
           <[current_user := User.Build (User.organizations u ++ [org_id])%list]>
             (Users_docs s);
         Opportunities_docs := Opportunities_docs s |}
| step_deleted org_id o :
    Organizations_docs s !! org_id = Some o →
    cleanup_count org_id (Org.members o) (Users_docs s) ≠ 0%nat →
    store_step s
      {| Organizations_docs := delete org_id (Organizations_docs s);
         Users_docs := cleaned_users org_id (Org.members o) (Users_docs s);
         Opportunities_docs := Opportunities_docs s |}.

(** A call of one operation of the organization store. *)
Inductive call : Type :=
| CreateOrganization (current_user : string)
    (organization : OrganizationBaseSchema) (new_id : string)
| CreateOpportunity (current_user org_id opportunity new_id : string)
| IsAuthorizedUser (org_id user_id : string)
| AddMember (current_user org_id : string)
| DeleteOrganization (current_user org_id : string).

(** The world after a call, whatever it returned or raised. *)
Definition after (validate : list string → result bool) (c : call)
    (w : World) : World :=
  match c with
  | CreateOrganization current_user organization new_id =>
      snd (Organizations.create_organization validate current_user
             organization new_id w)
  | CreateOpportunity current_user org_id opportunity new_id =>
      snd (Organizations.create_opportunity validate current_user org_id
             opportunity new_id w)
  | IsAuthorizedUser org_id user_id =>
      snd (Organizations.is_authorized_user validate org_id user_id w)
  | AddMember current_user org_id =>
      snd (Organizations.add_member validate current_user org_id w)
  | DeleteOrganization current_user org_id =>
      snd (Organizations.delete_organization validate current_user org_id w)
  end.

(** The world after a sequence of calls. *)
Definition after_all (validate : list string → result bool) (cs : list call)
    (w : World) : World :=
  foldl (λ w c, after validate c w) w cs.

(** Every member of an organization has a user record that lists it. *)
Definition members_listed (s : Store) : Prop :=
  ∀ k o m, Organizations_docs s !! k = Some o → m ∈ Org.members o →
    ∃ u, Users_docs s !! m = Some u ∧ k ∈ User.organizations u.

(** A user record lists only organizations that exist and have the user as
    a member. *)
Definition listed_are_members (s : Store) : Prop :=
  ∀ m u k, Users_docs s !! m = Some u → k ∈ User.organizations u →
    ∃ o, Organizations_docs s !! k = Some o ∧ m ∈ Org.members o.

(** No user is twice among the members of an organization. *)
Definition members_nodup (s : Store) : Prop :=
  ∀ k o, Organizations_docs s !! k = Some o → NoDup (Org.members o).

(** The creator is the one admin of an organization, and a member. *)
Definition creator_is_sole_admin (s : Store) : Prop :=
  ∀ k o, Organizations_docs s !! k = Some o →
    Org.admins o = [Org.created_by o] ∧ Org.created_by o ∈ Org.members o.

(** The opportunity ids of an organization are stored opportunities of it. *)
Definition opportunities_stored (s : Store) : Prop :=
  ∀ k o p, Organizations_docs s !! k = Some o → p ∈ Org.opportunities o →
    ∃ opp, Opportunities_docs s !! p = Some opp ∧ Opp.organization_id opp = k.

Definition empty_store : Store :=
  {| Organizations_docs := ∅; Users_docs := ∅; Opportunities_docs := ∅ |}.

(** The five together. *)
Definition consistent (s : Store) : Prop :=
  members_listed s ∧ listed_are_members s ∧ members_nodup s
  ∧ creator_is_sole_admin s ∧ opportunities_stored s.

(** A store before the first organization: no organization, and no user
    record lists one. *)
Definition no_organizations (s : Store) : Prop :=
  Organizations_docs s = ∅
  ∧ map_Forall (λ _ u, User.organizations u = []) (Users_docs s).

(** Three users and no organization. *)
Definition world_users : World :=
  {| db := {| Organizations_docs := ∅;
              Users_docs := {[ "U1" := User.Build []; "U2" := User.Build [];
                               "U3" := User.Build [] ]};
              Opportunities_docs := ∅ |};
     live_sessions := 0;
     outage := None;
     background_tasks := [] |}.

Definition beta : OrganizationBaseSchema :=
  {| schema_name := "Beta"; schema_description := ""; schema_private := false |}.

(** U1 creates Beta as O1, U2 joins, U1 posts the opportunity P1. *)
Definition story : list call :=
  [ CreateOrganization "U1" beta "O1";
    AddMember "U2" "O1";
    CreateOpportunity "U1" "O1" "internship" "P1" ].

(** The world in which delete_organization leaves its session. *)
Definition session_left (w : World) : World :=
  set_live_sessions (S (live_sessions w)) w.

(** A validator that takes these ids. *)
Definition takes (validate : list string → result bool) (ids : list string) :
    Prop :=
  ∃ b, validate ids = inr b.

(** The HTTP failures of the module: an HTTPException with one of the
    statuses that the operations raise themselves, or the 500 of the clause
    [except ConnectionFailure]. *)
Definition http_error (e : exn) : Prop :=
  ∃ c d, e = HTTPException c d
         ∧ (c ∈ [HTTP_400_BAD_REQUEST; HTTP_401_UNAUTHORIZED; HTTP_404_NOT_FOUND]
            ∨ (c = HTTP_500_INTERNAL_SERVER_ERROR
               ∧ d = "Error: Database connection error.")).

(** An exception that is no HTTPException, or is one of those. *)
Definition no_other_http_error (e : exn) : Prop :=
  ∀ c d, e = HTTPException c d → http_error e.

(** What a [try] block raises: any error, but as an Exception with a dict
    only the dicts of the module, with a detail and one of its statuses. *)
Definition block_error (e : exn) : Prop :=
  ∀ c d, e = Exception (ArgDict c d) →
    ∃ c' d', c = Some c' ∧ d = Some d'
             ∧ c' ∈ [HTTP_400_BAD_REQUEST; HTTP_401_UNAUTHORIZED;
                     HTTP_404_NOT_FOUND].

(** A computation that raises nothing but exceptions in [P]. *)
Definition raises {A} (P : exn → Prop) (c : M A) : Prop :=
  ∀ w e w', c w = (inl e, w') → P e.

(** The calls of delete_organization in a sequence. *)
Fixpoint deletions (cs : list call) : nat :=
  match cs with
  | [] => 0
  | DeleteOrganization _ _ :: rest => S (deletions rest)
  | _ :: rest => deletions rest
  end.

(** * Properties *)

(** ** Running computations *)

Section Running.
Context {A B : Type}.

Lemma run_bind (c : M A) (k : A → M B) (w : World) :
  (c ≫= k) w =
  match c w with
  | (inr a, w') => k a w'
  | (inl e, w') => (inl e, w')
  end.
Proof. reflexivity. Qed.

Lemma run_bind_inr (c : M A) (k : A → M B) w b w' :
  (c ≫= k) w = (inr b, w') →
  ∃ a w1, c w = (inr a, w1) ∧ k a w1 = (inr b, w').
Proof.
  rewrite run_bind. destruct (c w) as [[e|a] w1]; [discriminate|]. eauto.
Qed.

End Running.

(** ** Sessions *)

Lemma balanced_ret {A} (a : A) : balanced (mret a).
Proof. intros w. reflexivity. Qed.

Lemma balanced_raise {A} (e : exn) : balanced (@raise A e).
Proof. intros w. reflexivity. Qed.

Lemma balanced_lift {A} (r : result A) : balanced (lift r).
Proof. intros w. reflexivity. Qed.

Lemma balanced_get : balanced get.
Proof. intros w. reflexivity. Qed.

Lemma balanced_bind {A B} (c : M A) (k : A → M B) :
  balanced c → (∀ a, balanced (k a)) → balanced (c ≫= k).
Proof.
  intros Hc Hk w. rewrite run_bind. specialize (Hc w).
  destruct (c w) as [[e|a] w1]; simpl in *; [done|].
  rewrite Hk. done.
Qed.

Lemma balanced_roundtrip : balanced roundtrip.
Proof. intros w. unfold roundtrip. by destruct (outage w) as [[|n]|]. Qed.

Lemma balanced_set_db (f : World → Store) : balanced (modify (λ w, set_db (f w) w)).
Proof. intros w. reflexivity. Qed.

Lemma balanced_if {A} (b : bool) (c1 c2 : M A) :
  balanced c1 → balanced c2 → balanced (if b then c1 else c2).
Proof. by destruct b. Qed.

Create HintDb balanced.
#[local] Hint Resolve balanced_ret balanced_raise balanced_lift balanced_get
  balanced_roundtrip balanced_set_db balanced_if : balanced.
#[local] Hint Extern 1 (balanced (_ ≫= _)) => apply balanced_bind; [|intros ?] : balanced.
#[local] Hint Extern 1 (balanced (mbind _ _)) => apply balanced_bind; [|intros ?] : balanced.

Lemma balanced_find_one {D} (c : Collection D) k cond : balanced (find_one c k cond).
Proof. unfold find_one. auto with balanced. Qed.

Lemma balanced_insert_one {D} (c : Collection D) k d : balanced (insert_one c k d).
Proof. unfold insert_one. eauto 10 with balanced. Qed.

Lemma balanced_update_one {D} (c : Collection D) k op : balanced (update_one c k op).
Proof.
  unfold update_one. do 2 (apply balanced_bind; [auto with balanced|intros ?]).
  destruct (_ ≫= op); auto with balanced.
Qed.

Lemma balanced_update_many {D} (c : Collection D) sel op :
  balanced (update_many c sel op).
Proof. unfold update_many. eauto 10 with balanced. Qed.

Lemma balanced_delete_one {D} (c : Collection D) k : balanced (delete_one c k).
Proof.
  unfold delete_one. do 2 (apply balanced_bind; [auto with balanced|intros ?]).
  destruct (_ !! k); auto with balanced.
Qed.

Lemma balanced_start_transaction {A} s (body : M A) :
  balanced body → balanced (start_transaction s body).
Proof.
  intros Hb w. unfold start_transaction. specialize (Hb w).
  destruct (body w) as [[e|a] w1]; simpl in *; [done|].
  pose proof (balanced_roundtrip w1) as Hr.
  destruct (roundtrip w1) as [[e|[]] w2]; simpl in *; congruence.
Qed.

Lemma balanced_try_except {A} (body : M A) handler :
  balanced body → (∀ e, balanced (handler e)) → balanced (try_except body handler).
Proof.
  intros Hb Hh w. unfold try_except. specialize (Hb w).
  destruct (body w) as [[e|a] w1]; simpl in *; [|done].
  rewrite Hh. done.
Qed.

Lemma balanced_try_finally {A} (body : M A) fin :
  balanced body → balanced fin → balanced (try_finally body fin).
Proof.
  intros Hb Hf w. unfold try_finally. specialize (Hb w).
  destruct (body w) as [r w1]; simpl in *. specialize (Hf w1).
  destruct (fin w1) as [[e|[]] w2]; simpl in *; congruence.
Qed.

#[local] Hint Resolve balanced_find_one balanced_insert_one balanced_update_one
  balanced_update_many balanced_delete_one balanced_start_transaction
  balanced_try_except balanced_try_finally : balanced.

Lemma balanced_handlers {A} e : balanced (@Organizations.handlers A e).
Proof.
  unfold Organizations.handlers, Organizations.except_ConnectionFailure,
    Organizations.except_Exception.
  destruct e as [[]| | | | | | | |]; simpl; auto with balanced.
Qed.

Lemma balanced_create_organization_handlers {A} e :
  balanced (@Organizations.create_organization_handlers A e).
Proof.
  unfold Organizations.create_organization_handlers,
    Organizations.except_ConnectionFailure, Organizations.except_Exception.
  destruct e as [[]| | | | | | | |]; simpl; auto with balanced.
Qed.

#[local] Hint Resolve balanced_handlers balanced_create_organization_handlers
  : balanced.

(** The shape shared by create_organization, create_opportunity and
    add_member: the session that the [try] block starts is ended by the
    [finally] clause, however the block is left. *)
Lemma balanced_session_block {A} (body : ClientSession → M A) handler :
  (∀ s, balanced (body s)) → (∀ e, balanced (handler e)) →
  balanced (try_assign start_session body handler
              Organizations.finally_end_session).
Proof.
  intros Hb Hh w. unfold try_assign, start_session.
  rewrite run_bind. simpl. unfold try_finally.
  pose proof (balanced_try_except (body Session) handler (Hb _) Hh
                (set_live_sessions (S (live_sessions w)) w)) as H.
  destruct (try_except _ _ _) as [r w1]; simpl in *. by rewrite H.
Qed.

Section SessionDiscipline.
Import Organizations.
Variable validate : list string → result bool.

Lemma balanced_create_organization_transaction current_user organization new_id :
  balanced (create_organization_transaction current_user organization new_id).
Proof.
  unfold create_organization_transaction, raise_status.
  auto 10 with balanced.
Qed.

Lemma balanced_create_opportunity_transaction org_id opportunity new_id :
  balanced (create_opportunity_transaction org_id opportunity new_id).
Proof.
  unfold create_opportunity_transaction, raise_status.
  do 3 (apply balanced_bind; [auto with balanced|intros ?]).
  apply balanced_bind; [|auto with balanced]. intros w. reflexivity.
Qed.

Lemma balanced_add_member_transaction current_user org_id :
  balanced (add_member_transaction current_user org_id).
Proof.
  unfold add_member_transaction, raise_status.
  apply balanced_bind; [auto with balanced|intros [o|]]; auto 20 with balanced.
Qed.

Lemma balanced_delete_organization_transaction current_user org_id :
  balanced (delete_organization_transaction current_user org_id).
Proof.
  unfold delete_organization_transaction, raise_status.
  apply balanced_bind; [auto with balanced|intros [o|]]; auto 20 with balanced.
Qed.

Lemma balanced_create_organization current_user organization new_id :
  balanced (create_organization validate current_user organization new_id).
Proof.
  unfold create_organization, initiate_db.
  do 2 (apply balanced_bind; [auto with balanced|intros ?]).
  apply balanced_session_block; [intros s|auto with balanced].
  auto using balanced_start_transaction,
    balanced_create_organization_transaction.
Qed.

Lemma balanced_create_opportunity current_user org_id opportunity new_id :
  balanced (create_opportunity validate current_user org_id opportunity new_id).
Proof.
  unfold create_opportunity, initiate_db.
  do 2 (apply balanced_bind; [auto with balanced|intros ?]).
  apply balanced_session_block; [intros s|auto with balanced].
  auto using balanced_start_transaction,
    balanced_create_opportunity_transaction.
Qed.

Lemma balanced_add_member current_user org_id :
  balanced (add_member validate current_user org_id).
Proof.
  unfold add_member, initiate_db.
  do 2 (apply balanced_bind; [auto with balanced|intros ?]).
  apply balanced_session_block; [intros s|auto with balanced].
  auto using balanced_start_transaction, balanced_add_member_transaction.
Qed.

Lemma balanced_is_authorized_user org_id user_id :
  balanced (is_authorized_user validate org_id user_id).
Proof.
  unfold is_authorized_user, initiate_db, MongoDBConnector_close.
  do 2 (apply balanced_bind; [auto with balanced|intros ?]).
  apply balanced_try_finally; [|auto with balanced].
  apply balanced_try_except; [|auto with balanced].
  unfold is_authorized_user_query.
  apply balanced_bind; [auto with balanced|intros [o|]];
    unfold raise_status; auto with balanced.
Qed.

End SessionDiscipline.

(** C9 (defect of delete_organization).  create_organization,
    create_opportunity and add_member end with as many live sessions as they
    started with, on every path; delete_organization, which has no [finally]
    clause, leaves the session it started live whenever [start_session]
    returned, whether the deletion succeeds or fails. *)
Theorem delete_organization_session_not_released
    (validate : list string → result bool) (current_user org_id : string)
    (w : World) (b : bool) :
  validate [org_id; current_user] = inr b →
  outage w ≠ Some 0%nat →
  live_sessions
    (snd (Organizations.delete_organization validate current_user org_id w))
  = S (live_sessions w)
  ∧ (∀ u p i, balanced (Organizations.create_organization validate u p i))
  ∧ (∀ u o p i, balanced (Organizations.create_opportunity validate u o p i))
  ∧ (∀ u o, balanced (Organizations.add_member validate u o)).
Proof.
  intros Hv Ho. split; [|auto using balanced_create_organization,
    balanced_create_opportunity, balanced_add_member].
  unfold Organizations.delete_organization, Organizations.initiate_db.
  rewrite run_bind. simpl. rewrite run_bind. unfold lift. rewrite Hv.
  unfold try_except at 1. rewrite run_bind.
  assert (∃ w1, start_session w = (inr Session, w1)
                ∧ live_sessions w1 = S (live_sessions w)) as (w1 & Hs & Hl).
  { unfold start_session. rewrite run_bind. simpl. eauto. }
  rewrite Hs.
  pose proof (balanced_try_except _ Organizations.handlers
                (balanced_start_transaction Session _
                   (balanced_delete_organization_transaction current_user org_id))
                (@balanced_handlers _) w1) as H.
  unfold try_except in H.
  destruct (start_transaction _ _ w1) as [[e|r] w2]; simpl in *; congruence.
Qed.

(** ** Calls to the server while the connection is up *)

Section Reliable.
Context {D : Type} (c : Collection D).
Variable w : World.
Hypothesis up : outage w = None.

Lemma roundtrip_up : roundtrip w = (inr tt, w).
Proof. unfold roundtrip. by rewrite up. Qed.

Lemma find_one_up k cond :
  find_one c k cond w
  = (inr (d ← docs c (db w) !! k ; if cond d then Some d else None), w).
Proof. unfold find_one. rewrite run_bind, roundtrip_up. reflexivity. Qed.

Lemma insert_one_up k d :
  insert_one c k d w
  = if bool_decide (is_Some (docs c (db w) !! k))
       || violates_index c d (docs c (db w))
    then (inl (DuplicateKeyError "E11000 duplicate key error collection"), w)
    else (inr k, set_db (put c (<[k := d]> (docs c (db w))) (db w)) w).
Proof.
  unfold insert_one. rewrite run_bind, roundtrip_up. simpl.
  rewrite run_bind. simpl. by destruct (_ || _).
Qed.

Lemma update_one_up k op :
  update_one c k op w
  = match docs c (db w) !! k ≫= op with
    | Some d' => (inr 1%nat, set_db (put c (<[k := d']> (docs c (db w))) (db w)) w)
    | None => (inr 0%nat, w)
    end.
Proof.
  unfold update_one. rewrite run_bind, roundtrip_up. simpl.
  rewrite run_bind. simpl. by destruct (_ ≫= op).
Qed.

Lemma update_many_up sel op :
  update_many c sel op w
  = (inr (size (modified sel op (docs c (db w)))),
     set_db (put c (modified sel op (docs c (db w)) ∪ docs c (db w)) (db w)) w).
Proof. unfold update_many. rewrite run_bind, roundtrip_up. reflexivity. Qed.

Lemma delete_one_up k :
  delete_one c k w
  = match docs c (db w) !! k with
    | Some _ => (inr 1%nat, set_db (put c (delete k (docs c (db w))) (db w)) w)
    | None => (inr 0%nat, w)
    end.
Proof.
  unfold delete_one. rewrite run_bind, roundtrip_up. simpl.
  rewrite run_bind. simpl. by destruct (_ !! k).
Qed.

Lemma start_session_up :
  start_session w = (inr Session, set_live_sessions (S (live_sessions w)) w).
Proof. reflexivity. Qed.

End Reliable.

(** C4.  With well-formed ids and the connection up, is_authorized_user
    returns exactly when the user is among the admins of the organization;
    in every other case, that of an absent organization included, it raises
    the 401 failure "Unauthorized user", and never a 404 failure. *)
Theorem is_authorized_user_iff_admin
    (validate : list string → result bool) (org_id user_id : string)
    (w : World) (b : bool) :
  validate [org_id; user_id] = inr b →
  outage w = None →
  let r := fst (Organizations.is_authorized_user validate org_id user_id w) in
  let admin := ∃ o, Organizations_docs (db w) !! org_id = Some o
                    ∧ user_id ∈ Org.admins o in
  (r = inr tt ↔ admin)
  ∧ (¬ admin →
     r = inl (HTTPException HTTP_401_UNAUTHORIZED "Error: Unauthorized user."))
  ∧ (Organizations_docs (db w) !! org_id = None →
     r = inl (HTTPException HTTP_401_UNAUTHORIZED "Error: Unauthorized user."))
  ∧ (∀ detail, r ≠ inl (HTTPException HTTP_404_NOT_FOUND detail)).
Proof.
  intros Hv Hup r admin.
  assert (r = match Organizations_docs (db w) !! org_id with
              | Some o => if bool_decide (user_id ∈ Org.admins o) then inr tt
                          else inl (HTTPException 401 "Error: Unauthorized user.")
              | None => inl (HTTPException 401 "Error: Unauthorized user.")
              end) as Hr.
  { subst r. unfold Organizations.is_authorized_user, Organizations.initiate_db.
    rewrite run_bind. simpl. rewrite run_bind. unfold lift. rewrite Hv.
    unfold try_finally, try_except, Organizations.is_authorized_user_query.
    rewrite run_bind, find_one_up by done. simpl.
    destruct (Organizations_docs (db w) !! org_id) as [o|]; simpl; [|done].
    by destruct (bool_decide _). }
  clearbody r. subst r admin.
  destruct (Organizations_docs (db w) !! org_id) as [o|] eqn:Ho.
  - destruct (bool_decide (user_id ∈ Org.admins o)) eqn:Hb.
    + apply bool_decide_eq_true in Hb.
      repeat split; try done; eauto. intros Hn. destruct Hn; eauto.
    + apply bool_decide_eq_false in Hb.
      repeat split; try done. intros (o' & Ho' & Hin). congruence.
  - repeat split; try done. intros (o' & Ho' & _). done.
Qed.

(** ** Atomicity *)

Lemma atomic_start_transaction {A} s (body : M A) :
  atomic (start_transaction s body).
Proof.
  intros w e w'. unfold start_transaction.
  destruct (body w) as [[e1|a] w1].
  - intros [= <- <-]. reflexivity.
  - destruct (roundtrip w1) as [[e2|[]] w2]; [|discriminate].
    intros [= <- <-]. reflexivity.
Qed.

Lemma start_transaction_inr {A} s (body : M A) w a w' :
  start_transaction s body w = (inr a, w') →
  ∃ w1, body w = (inr a, w1) ∧ db w' = db w1.
Proof.
  unfold start_transaction. destruct (body w) as [[e1|a1] w1]; [discriminate|].
  unfold roundtrip. destruct (outage w1) as [[|n]|]; [discriminate| |];
    intros [= <- <-]; eauto.
Qed.

Lemma readonly_roundtrip : readonly roundtrip.
Proof.
  intros w r w'. unfold roundtrip.
  destruct (outage w) as [[|n]|]; by intros [= <- <-].
Qed.

Lemma readonly_start_session : readonly start_session.
Proof. by intros w r w' [= <- <-]. Qed.

Lemma reraising_handlers {A} : reraising (@Organizations.handlers A).
Proof.
  intros e w. unfold Organizations.handlers,
    Organizations.except_ConnectionFailure, Organizations.except_Exception.
  destruct e as [[]| | | | | | | |]; simpl; eauto.
Qed.

Lemma reraising_create_organization_handlers {A} :
  reraising (@Organizations.create_organization_handlers A).
Proof.
  intros e w. unfold Organizations.create_organization_handlers,
    Organizations.except_ConnectionFailure, Organizations.except_Exception.
  destruct e as [[]| | | | | | | |]; simpl; eauto.
Qed.

Lemma try_except_inr {A} (body : M A) h w a w' :
  reraising h → try_except body h w = (inr a, w') → body w = (inr a, w').
Proof.
  intros Hh. unfold try_except. destruct (body w) as [[e|a1] w1]; [|done].
  destruct (Hh e w1) as [e' ->]. discriminate.
Qed.

Lemma atomic_try_except {A} (body : M A) h :
  reraising h → atomic body → atomic (try_except body h).
Proof.
  intros Hh Hb w e w'. unfold try_except.
  destruct (body w) as [[e1|a1] w1] eqn:Hbody; [|discriminate].
  destruct (Hh e1 w1) as [e' ->]. intros [= <- <-]. eauto.
Qed.

(** The session block of create_organization, create_opportunity and
    add_member around a transaction. *)
Lemma finally_end_session_bound s w :
  Organizations.finally_end_session (Some s) w
  = (inr tt, set_live_sessions (pred (live_sessions w)) w).
Proof. reflexivity. Qed.

Lemma atomic_session_block {A} (body : M A) h :
  reraising h →
  atomic (try_assign start_session (λ s, start_transaction s body) h
            Organizations.finally_end_session).
Proof.
  intros Hh w e w'. unfold try_assign.
  destruct (start_session w) as [[e1|s] w1] eqn:Hs;
    apply readonly_start_session in Hs; unfold try_finally.
  - destruct (Hh e1 w1) as [e' ->]. simpl. intros [= <- <-]. done.
  - destruct (try_except _ h w1) as [r w2] eqn:Hb.
    rewrite finally_end_session_bound. intros [= -> <-]. simpl.
    apply atomic_try_except in Hb; auto using atomic_start_transaction.
    congruence.
Qed.

Lemma session_block_inr {A} (body : M A) h w a w' :
  reraising h →
  try_assign start_session (λ s, start_transaction s body) h
    Organizations.finally_end_session w = (inr a, w') →
  ∃ w0 w1, db w0 = db w ∧ body w0 = (inr a, w1) ∧ db w' = db w1.
Proof.
  intros Hh. unfold try_assign.
  destruct (start_session w) as [[e1|s] w1] eqn:Hs;
    apply readonly_start_session in Hs; unfold try_finally.
  - destruct (Hh e1 w1) as [e' ->]. simpl. discriminate.
  - destruct (try_except _ h w1) as [r w2] eqn:Hb.
    rewrite finally_end_session_bound. intros [= -> <-]. simpl.
    apply try_except_inr in Hb; [|done].
    apply start_transaction_inr in Hb as (w4 & Hb & Hd).
    exists w1, w4. repeat split; congruence.
Qed.

Section Atomicity.
Import Organizations.
Variable validate : list string → result bool.

(** Entering an operation: the connection handle and the validation of
    the ids. *)
Lemma run_validated {A} ids (k : M A) w :
  (initiate_db ;; _ ← lift (validate ids) ; k) w
  = match validate ids with
    | inr _ => k w
    | inl e => (inl e, w)
    end.
Proof.
  unfold initiate_db. rewrite run_bind. simpl. rewrite run_bind.
  unfold lift. by destruct (validate ids).
Qed.

Lemma atomic_create_organization current_user organization new_id :
  atomic (create_organization validate current_user organization new_id).
Proof.
  intros w e w'. unfold create_organization. rewrite run_validated.
  destruct (validate _); [by intros [= <- <-]|].
  apply atomic_session_block, reraising_create_organization_handlers.
Qed.

Lemma atomic_create_opportunity current_user org_id opportunity new_id :
  atomic (create_opportunity validate current_user org_id opportunity new_id).
Proof.
  intros w e w'. unfold create_opportunity. rewrite run_validated.
  destruct (validate _); [by intros [= <- <-]|].
  apply atomic_session_block, reraising_handlers.
Qed.

Lemma atomic_add_member current_user org_id :
  atomic (add_member validate current_user org_id).
Proof.
  intros w e w'. unfold add_member. rewrite run_validated.
  destruct (validate _); [by intros [= <- <-]|].
  apply atomic_session_block, reraising_handlers.
Qed.

Lemma atomic_delete_organization current_user org_id :
  atomic (delete_organization validate current_user org_id).
Proof.
  intros w e w'. unfold delete_organization. rewrite run_validated.
  destruct (validate _); [by intros [= <- <-]|].
  unfold try_except. rewrite run_bind.
  destruct (start_session w) as [[e1|s] w1] eqn:Hs;
    apply readonly_start_session in Hs.
  - destruct (reraising_handlers (A:=Response) e1 w1) as [e' ->].
    intros [= <- <-]. done.
  - destruct (start_transaction _ _ w1) as [[e2|a] w2] eqn:Ht; [|discriminate].
    apply atomic_start_transaction in Ht.
    destruct (reraising_handlers (A:=Response) e2 w2) as [e' ->].
    intros [= <- <-]. congruence.
Qed.

Lemma delete_organization_inr current_user org_id w resp w' :
  delete_organization validate current_user org_id w = (inr resp, w') →
  ∃ w0 w1, db w0 = db w
           ∧ delete_organization_transaction current_user org_id w0 = (inr resp, w1)
           ∧ db w' = db w1.
Proof.
  unfold delete_organization. rewrite run_validated.
  destruct (validate _); [discriminate|]. intros H.
  apply try_except_inr in H; [|apply reraising_handlers].
  apply run_bind_inr in H as (s & w0 & Hs & H).
  apply readonly_start_session in Hs.
  apply start_transaction_inr in H as (w1 & H & Hd). eauto.
Qed.

End Atomicity.

(** ** What a call that returned has done *)

Lemma find_one_inr {D} (c : Collection D) k cond w r w' :
  find_one c k cond w = (inr r, w') →
  r = (d ← docs c (db w) !! k ; if cond d then Some d else None) ∧ db w' = db w.
Proof.
  unfold find_one. intros H. apply run_bind_inr in H as ([] & w1 & Hr & H).
  apply readonly_roundtrip in Hr. injection H as <- <-. by rewrite Hr.
Qed.

Lemma delete_one_inr {D} (c : Collection D) k w n w' :
  delete_one c k w = (inr n, w') →
  db w' = db w ∨ db w' = put c (delete k (docs c (db w))) (db w).
Proof.
  unfold delete_one. intros H. apply run_bind_inr in H as ([] & w1 & Hr & H).
  apply readonly_roundtrip in Hr. rewrite run_bind in H. simpl in H.
  rewrite Hr in H.
  destruct (docs c (db w) !! k); injection H as <- <-; simpl; rewrite ?Hr; auto.
Qed.

Lemma update_many_inr {D} (c : Collection D) sel op w n w' :
  update_many c sel op w = (inr n, w') →
  n = size (modified sel op (docs c (db w))).
Proof.
  unfold update_many. intros H. apply run_bind_inr in H as ([] & w1 & Hr & H).
  apply readonly_roundtrip in Hr. injection H as <- <-. by rewrite Hr.
Qed.

Lemma cleanup_count_zero org_id members (us : gmap string User.t) :
  cleanup_count org_id members us = 0%nat
  ↔ cleanup_modifies_nothing org_id members us.
Proof.
  unfold cleanup_count, cleanup_modifies_nothing.
  rewrite map_size_empty_iff. unfold modified. split.
  - intros He k u Hk Hu Hin.
    assert (map_imap (λ k d, if bool_decide (k ∈ members)
                             then Organizations.pull_organizations org_id d
                             else None) us !! k = None) as Hl.
    { by rewrite He, lookup_empty. }
    rewrite map_lookup_imap, Hu in Hl. simpl in Hl.
    rewrite bool_decide_eq_true_2 in Hl by done.
    unfold Organizations.pull_organizations, pull in Hl.
    by rewrite bool_decide_eq_true_2 in Hl.
  - intros Hn. apply map_eq. intros k.
    rewrite map_lookup_imap, lookup_empty.
    destruct (us !! k) as [u|] eqn:Hk; simpl; [|done].
    case_bool_decide as Hm; [|done].
    unfold Organizations.pull_organizations, pull.
    rewrite bool_decide_eq_false_2; [done|]. eauto.
Qed.

Lemma delete_organization_transaction_inr current_user org_id w resp w' :
  Organizations.delete_organization_transaction current_user org_id w
  = (inr resp, w') →
  ∃ o, Organizations_docs (db w) !! org_id = Some o
       ∧ current_user = Org.created_by o
       ∧ cleanup_count org_id (Org.members o) (Users_docs (db w)) ≠ 0%nat.
Proof.
  unfold Organizations.delete_organization_transaction, cleanup_count. intros H.
  apply run_bind_inr in H as (r & w1 & Hf & H).
  apply find_one_inr in Hf as [-> Hd1]. simpl in H.
  destruct (Organizations_docs (db w) !! org_id) as [o|]; [|discriminate].
  simpl in H. exists o. split; [done|].
  destruct (String.eqb current_user (Org.created_by o)) eqn:Heq; [|discriminate].
  apply String.eqb_eq in Heq. split; [done|]. simpl in H.
  apply run_bind_inr in H as (n1 & w2 & Hdel & H).
  apply run_bind_inr in H as ([] & w3 & Hc1 & H).
  destruct (Nat.eqb n1 0); [discriminate|]. injection Hc1 as <-.
  apply run_bind_inr in H as (n2 & w4 & Hupd & H).
  apply run_bind_inr in H as ([] & w5 & Hc2 & H).
  destruct (Nat.eqb n2 0) eqn:Hn2; [discriminate|].
  apply Nat.eqb_neq in Hn2. apply update_many_inr in Hupd. simpl in Hupd.
  assert (Users_docs (db w2) = Users_docs (db w)) as <-; [|congruence].
  apply delete_one_inr in Hdel as [->| ->]; simpl; by rewrite Hd1.
Qed.

(** C1.  Let the organization have at least one member and let the cleanup
    of delete_organization modify zero user records (no member's record
    lists the organization).  Then the operation fails and the data are as
    before, the organization included; with well-formed ids, the connection
    up and the creator calling, the failure is that of the cleanup. *)
Theorem delete_organization_cleanup_failure_keeps_organization
    (validate : list string → result bool) (current_user org_id : string)
    (w : World) (o : Org.t) :
  Organizations_docs (db w) !! org_id = Some o →
  Org.members o ≠ [] →
  cleanup_count org_id (Org.members o) (Users_docs (db w)) = 0%nat →
  let r := Organizations.delete_organization validate current_user org_id w in
  (∃ e, fst r = inl e)
  ∧ db (snd r) = db w
  ∧ Organizations_docs (db (snd r)) !! org_id = Some o
  ∧ (∀ b, validate [org_id; current_user] = inr b →
          outage w = None →
          current_user = Org.created_by o →
          fst r = inl (HTTPException HTTP_400_BAD_REQUEST
                         "Error: Unable to update user.")).
Proof.
  intros Ho _ Hn r.
  assert (∃ e, fst r = inl e) as [e He].
  { destruct r as [[e|resp] w'] eqn:Hr; [by eauto|]. exfalso.
    apply delete_organization_inr in Hr as (w0 & w1 & Hd0 & Ht & _).
    apply delete_organization_transaction_inr in Ht as (o' & Ho' & _ & Hsz).
    rewrite Hd0, Ho in Ho'. injection Ho' as <-.
    rewrite Hd0 in Hsz. done. }
  assert (db (snd r) = db w) as Hdb.
  { destruct r as [r1 w'] eqn:Hr. simpl in *. subst r1.
    by apply atomic_delete_organization in Hr. }
  split; [by eauto|]. split; [done|]. split; [by rewrite Hdb|].
  intros b Hv Hup ->. subst r.
  unfold Organizations.delete_organization. rewrite run_validated, Hv.
  unfold try_except. rewrite run_bind, start_session_up by done.
  unfold start_transaction, Organizations.delete_organization_transaction.
  rewrite run_bind, find_one_up by done. simpl. rewrite Ho. simpl.
  rewrite String.eqb_refl. simpl.
  rewrite run_bind, delete_one_up by done. simpl. rewrite Ho.
  rewrite run_bind. simpl.
  rewrite run_bind, update_many_up by done. simpl.
  unfold cleanup_count in Hn. rewrite Hn. reflexivity.
Qed.

(** C6.  delete_organization returns only for the creator of an existing
    organization.  For any other caller of an existing organization, an
    admin included, it fails and the data are as before, so the
    organization is still there; with well-formed ids and the connection
    up, the failure is the 401 failure "Unauthorized user". *)
Theorem delete_organization_only_by_creator
    (validate : list string → result bool) (current_user org_id : string)
    (w : World) :
  let r := Organizations.delete_organization validate current_user org_id w in
  (∀ resp, fst r = inr resp →
     ∃ o, Organizations_docs (db w) !! org_id = Some o
          ∧ current_user = Org.created_by o)
  ∧ (∀ o, Organizations_docs (db w) !! org_id = Some o →
          current_user ≠ Org.created_by o →
          (∃ e, fst r = inl e)
          ∧ db (snd r) = db w
          ∧ Organizations_docs (db (snd r)) !! org_id = Some o
          ∧ (∀ b, validate [org_id; current_user] = inr b →
                  outage w = None →
                  fst r = inl (HTTPException HTTP_401_UNAUTHORIZED
                                 "Error: Unauthorized user."))).
Proof.
  intros r.
  assert (∀ resp, fst r = inr resp →
            ∃ o, Organizations_docs (db w) !! org_id = Some o
                 ∧ current_user = Org.created_by o) as Honly.
  { intros resp Hr. destruct r as [r1 w'] eqn:Hrun. simpl in Hr. subst r1.
    apply delete_organization_inr in Hrun as (w0 & w1 & Hd0 & Ht & _).
    apply delete_organization_transaction_inr in Ht as (o & Ho & Hc & _).
    rewrite Hd0 in Ho. eauto. }
  split; [done|]. intros o Ho Hne.
  assert (∃ e, fst r = inl e) as [e He].
  { destruct (fst r) as [e|resp] eqn:Hr; [by eauto|].
    destruct (Honly resp eq_refl) as (o' & Ho' & Hc). congruence. }
  assert (db (snd r) = db w) as Hdb.
  { destruct r as [r1 w'] eqn:Hr. simpl in *. subst r1.
    by apply atomic_delete_organization in Hr. }
  split; [by eauto|]. split; [done|]. split; [by rewrite Hdb|].
  intros b Hv Hup. subst r.
  unfold Organizations.delete_organization. rewrite run_validated, Hv.
  unfold try_except. rewrite run_bind, start_session_up by done.
  unfold start_transaction, Organizations.delete_organization_transaction.
  rewrite run_bind, find_one_up by done. simpl. rewrite Ho. simpl.
  apply String.eqb_neq in Hne. rewrite Hne. reflexivity.
Qed.

Lemma insert_one_inr {D} (c : Collection D) k d w k' w' :
  insert_one c k d w = (inr k', w') →
  k' = k
  ∧ docs c (db w) !! k = None
  ∧ violates_index c d (docs c (db w)) = false
  ∧ db w' = put c (<[k := d]> (docs c (db w))) (db w).
Proof.
  unfold insert_one. intros H. apply run_bind_inr in H as ([] & w1 & Hr & H).
  apply readonly_roundtrip in Hr. rewrite run_bind in H. simpl in H.
  rewrite Hr in H.
  destruct (bool_decide _) eqn:Hk; simpl in H; [discriminate|].
  destruct (violates_index _ _ _) eqn:Hi; simpl in H; [discriminate|].
  injection H as <- <-. simpl. rewrite Hr.
  apply bool_decide_eq_false in Hk. rewrite <- eq_None_not_Some in Hk. done.
Qed.

Lemma update_one_inr {D} (c : Collection D) k op w n w' :
  update_one c k op w = (inr n, w') →
  match docs c (db w) !! k ≫= op with
  | Some d' => n = 1%nat ∧ db w' = put c (<[k := d']> (docs c (db w))) (db w)
  | None => n = 0%nat ∧ db w' = db w
  end.
Proof.
  unfold update_one. intros H. apply run_bind_inr in H as ([] & w1 & Hr & H).
  apply readonly_roundtrip in Hr. rewrite run_bind in H. simpl in H.
  rewrite Hr in H.
  destruct (docs c (db w) !! k ≫= op); injection H as <- <-; simpl;
    rewrite ?Hr; done.
Qed.

Lemma create_organization_transaction_inr owner payload new_id w resp w' :
  Organizations.create_organization_transaction owner payload new_id w
  = (inr resp, w') →
  resp = Organizations.Created
           (Organizations.OrganizationBody new_id (new_organization owner payload))
  ∧ Organizations_docs (db w') !! new_id = Some (new_organization owner payload)
  ∧ ∃ u, Users_docs (db w) !! owner = Some u
         ∧ Users_docs (db w') !! owner
           = Some (User.Build (User.organizations u ++ [new_id])%list).
Proof.
  unfold Organizations.create_organization_transaction. intros H.
  apply run_bind_inr in H as (k & w1 & Hins & H).
  apply insert_one_inr in Hins as (-> & _ & _ & Hd1).
  apply run_bind_inr in H as (n & w2 & Hupd & H).
  apply update_one_inr in Hupd. simpl in Hupd. rewrite Hd1 in Hupd. simpl in Hupd.
  apply run_bind_inr in H as ([] & w3 & Hc & H).
  destruct (Users_docs (db w) !! owner) as [u|] eqn:Hu; simpl in Hupd.
  - destruct Hupd as [-> Hd2]. injection Hc as <-. injection H as <- <-.
    rewrite Hd2. simpl. rewrite lookup_insert_eq. split; [done|].
    split; [done|]. exists u. by rewrite lookup_insert_eq.
  - destruct Hupd as [-> _]. discriminate.
Qed.

Lemma violates_index_free (d : Org.t) (m : gmap string Org.t) :
  name_free (Org.name d) m → violates_index Organizations.name d m = false.
Proof.
  intros Hf. apply bool_decide_eq_false. intros (k & o & Hk & Hn).
  by apply (Hf k o).
Qed.

Lemma violates_index_taken (d : Org.t) (m : gmap string Org.t) k o :
  m !! k = Some o → Org.name o = Org.name d →
  violates_index Organizations.name d m = true.
Proof. intros Hk Hn. apply bool_decide_eq_true. by exists k, o. Qed.

(** C2.  Whenever create_organization returns, the store holds under the
    new id an organization whose admins and members are exactly the owner
    and whose created_by is the owner, it is the record returned, and the
    owner's user record lists the new id.  It does return when the ids are
    well-formed, the connection is up, the id and the name are new and the
    owner has a user record. *)
Theorem create_organization_owner_is_sole_member
    (validate : list string → result bool) (owner : string)
    (payload : OrganizationBaseSchema) (new_id : string) (w : World) :
  let r := Organizations.create_organization validate owner payload new_id w in
  (∀ resp, fst r = inr resp →
     ∃ o u, Organizations_docs (db (snd r)) !! new_id = Some o
            ∧ Org.admins o = [owner]
            ∧ Org.members o = [owner]
            ∧ Org.created_by o = owner
            ∧ resp = Organizations.Created (Organizations.OrganizationBody new_id o)
            ∧ Users_docs (db (snd r)) !! owner = Some u
            ∧ new_id ∈ User.organizations u)
  ∧ (∀ b u, validate [owner] = inr b →
            outage w = None →
            Organizations_docs (db w) !! new_id = None →
            name_free (schema_name payload) (Organizations_docs (db w)) →
            Users_docs (db w) !! owner = Some u →
            ∃ resp, fst r = inr resp).
Proof.
  intros r. split.
  - intros resp Hr. destruct r as [r1 w'] eqn:Hrun. simpl in *. subst r1.
    subst r. unfold Organizations.create_organization in Hrun.
    rewrite run_validated in Hrun. destruct (validate _); [discriminate|].
    apply session_block_inr in Hrun as (w0 & w1 & Hd0 & Ht & Hd1);
      [|apply reraising_create_organization_handlers].
    apply create_organization_transaction_inr in Ht as (-> & Ho & u & _ & Hu).
    exists (new_organization owner payload), (User.Build (User.organizations u ++ [new_id])%list).
    rewrite Hd1. repeat split; try done. simpl. set_solver.
  - intros b u Hv Hup Hnew Hfree Hu. subst r.
    unfold Organizations.create_organization. rewrite run_validated, Hv.
    unfold try_assign. rewrite start_session_up by done.
    unfold try_finally, try_except, start_transaction,
      Organizations.create_organization_transaction.
    rewrite run_bind, insert_one_up by done.
    rewrite violates_index_free by exact Hfree. simpl. rewrite Hnew. simpl.
    rewrite run_bind, update_one_up by done. simpl. rewrite Hu. simpl.
    rewrite roundtrip_up by done. simpl. eauto.
Qed.

(** C5.  With well-formed ids and the connection up: when the id and the
    name are new and the owner has no user record, so that the push into
    the owner's organizations modifies zero records, create_organization
    raises the 400 failure "Unable to update user" and the data are as
    before, the inserted organization gone; when an organization already
    has the name, it raises the 400 failure "Organization already exists
    with this name" and the data are as before, the owner's record
    included. *)
Theorem create_organization_failures_write_nothing
    (validate : list string → result bool) (owner : string)
    (payload : OrganizationBaseSchema) (new_id : string) (w : World) (b : bool) :
  validate [owner] = inr b →
  outage w = None →
  let r := Organizations.create_organization validate owner payload new_id w in
  (Organizations_docs (db w) !! new_id = None →
   name_free (schema_name payload) (Organizations_docs (db w)) →
   Users_docs (db w) !! owner = None →
   fst r = inl (HTTPException HTTP_400_BAD_REQUEST "Error: Unable to update user")
   ∧ db (snd r) = db w
   ∧ Organizations_docs (db (snd r)) !! new_id = None)
  ∧ (∀ k o, Organizations_docs (db w) !! k = Some o →
            Org.name o = schema_name payload →
            fst r = inl (HTTPException HTTP_400_BAD_REQUEST
                           "Error: Organization already exists with this name.")
            ∧ db (snd r) = db w
            ∧ Users_docs (db (snd r)) !! owner = Users_docs (db w) !! owner).
Proof.
  intros Hv Hup r.
  assert (∀ e, fst r = inl e → db (snd r) = db w) as Hatomic.
  { intros e He. destruct r as [r1 w'] eqn:Hr. simpl in *. subst r1.
    by apply atomic_create_organization in Hr. }
  split.
  - intros Hnew Hfree Hu.
    assert (fst r = inl (HTTPException HTTP_400_BAD_REQUEST
                           "Error: Unable to update user")) as Hr.
    { subst r. unfold Organizations.create_organization.
      rewrite run_validated, Hv.
      unfold try_assign. rewrite start_session_up by done.
      unfold try_finally, try_except, start_transaction,
        Organizations.create_organization_transaction.
      rewrite run_bind, insert_one_up by done.
      rewrite violates_index_free by exact Hfree. simpl. rewrite Hnew. simpl.
      rewrite run_bind, update_one_up by done. simpl. rewrite Hu. reflexivity. }
    split; [done|]. rewrite (Hatomic _ Hr). done.
  - intros k o Hk Hn.
    assert (fst r = inl (HTTPException HTTP_400_BAD_REQUEST
                           "Error: Organization already exists with this name."))
      as Hr.
    { subst r. unfold Organizations.create_organization.
      rewrite run_validated, Hv.
      unfold try_assign. rewrite start_session_up by done.
      unfold try_finally, try_except, start_transaction,
        Organizations.create_organization_transaction.
      rewrite run_bind, insert_one_up by done.
      rewrite (violates_index_taken _ _ k o) by done.
      rewrite orb_true_r. reflexivity. }
    split; [done|]. rewrite (Hatomic _ Hr). done.
Qed.

(** ** add_member while the connection is up *)

Lemma add_member_up (validate : list string → result bool)
    (current_user org_id : string) (w : World) (b : bool) :
  validate [org_id; current_user] = inr b →
  outage w = None →
  Organizations.add_member validate current_user org_id w
  = match Organizations_docs (db w) !! org_id with
    | None =>
        (inl (HTTPException HTTP_404_NOT_FOUND "Error: Organization not found."), w)
    | Some o =>
        if bool_decide (current_user ∈ Org.members o)
        then (inl (HTTPException HTTP_400_BAD_REQUEST
                     "Error: User is already a member of the organization."), w)
        else if Org.private o
        then (inl (HTTPException HTTP_401_UNAUTHORIZED
                     "Error: Organization is private."), w)
        else
          match Users_docs (db w) !! current_user with
          | None =>
              (inl (HTTPException HTTP_400_BAD_REQUEST
                      "Error: Unable to update user."), w)
          | Some u =>
              (inr (Organizations.Created
                      (Organizations.Detail "Success: User added to the organization.")),
               set_db
                 {| Organizations_docs :=
                      <[org_id := Org.Build (Org.name o) (Org.description o)
                                    (Org.created_by o) (Org.admins o)
                                    (Org.members o ++ [current_user])%list
                                    (Org.opportunities o) (Org.private o)]>
                        (Organizations_docs (db w));
                    Users_docs :=
                      <[current_user :=
                          User.Build (User.organizations u ++ [org_id])%list]>
                        (Users_docs (db w));
                    Opportunities_docs := Opportunities_docs (db w) |} w)
          end
    end.
Proof.
  intros Hv Hup. unfold Organizations.add_member. rewrite run_validated, Hv.
  unfold try_assign, try_finally, try_except, start_transaction,
    Organizations.add_member_transaction.
  rewrite start_session_up by done.
  rewrite run_bind, find_one_up by done. simpl.
  destruct (Organizations_docs (db w) !! org_id) as [o|] eqn:Ho; simpl;
    [|by destruct w].
  destruct (bool_decide (current_user ∈ Org.members o)); simpl; [by destruct w|].
  destruct (Org.private o) eqn:Hp; simpl; [by destruct w|].
  rewrite run_bind, update_one_up by done. simpl. rewrite Ho. simpl.
  rewrite run_bind. simpl. rewrite run_bind, update_one_up by done. simpl.
  destruct (Users_docs (db w) !! current_user) as [u|]; simpl.
  - rewrite roundtrip_up by done. simpl. rewrite Hp. by destruct w.
  - by destruct w.
Qed.

Lemma add_member_transaction_inr current_user org_id w resp w' :
  Organizations.add_member_transaction current_user org_id w = (inr resp, w') →
  ∃ o, Organizations_docs (db w) !! org_id = Some o
       ∧ (current_user ∉ Org.members o)
       ∧ Org.private o = false.
Proof.
  unfold Organizations.add_member_transaction. intros H.
  apply run_bind_inr in H as (r & w1 & Hf & H).
  apply find_one_inr in Hf as [-> _]. simpl in H.
  destruct (Organizations_docs (db w) !! org_id) as [o|]; [|discriminate].
  simpl in H. exists o. split; [done|].
  case_bool_decide as Hm; [discriminate|].
  by destruct (Org.private o).
Qed.

(** Whatever the connection does, a private organization takes no member. *)
Lemma add_member_private_rejects (validate : list string → result bool)
    (current_user org_id : string) (w : World) (o : Org.t) :
  Organizations_docs (db w) !! org_id = Some o →
  Org.private o = true →
  ∃ e, fst (Organizations.add_member validate current_user org_id w) = inl e.
Proof.
  intros Ho Hp.
  destruct (Organizations.add_member validate current_user org_id w)
    as [[e|resp] w'] eqn:Hrun; [by eauto|]. exfalso.
  unfold Organizations.add_member in Hrun. rewrite run_validated in Hrun.
  destruct (validate _); [discriminate|].
  apply session_block_inr in Hrun as (w0 & w1 & Hd0 & Ht & _);
    [|apply reraising_handlers].
  apply add_member_transaction_inr in Ht as (o' & Ho' & _ & Hp').
  rewrite Hd0 in Ho'. congruence.
Qed.

(** C3.  With well-formed ids and the connection up, add_member raises the
    404 failure when the organization is absent, else the 400 conflict
    failure when the user is already a member (private or not), else the 401
    failure when the organization is private.  Otherwise, when the user has
    a record, it returns with the user appended to the members and the
    organization appended to the user's organizations, and a second call
    with the same arguments raises the conflict failure; when the user has
    no record, the second update modifies zero records, the call fails and
    the members are as before.  Every failure leaves the data as they were,
    and a private organization rejects every call. *)
Theorem add_member_checks_in_order_and_atomic
    (validate : list string → result bool) (current_user org_id : string)
    (w : World) (b : bool) :
  validate [org_id; current_user] = inr b →
  outage w = None →
  let r := Organizations.add_member validate current_user org_id w in
  let conflict := HTTPException HTTP_400_BAD_REQUEST
                    "Error: User is already a member of the organization." in
  (Organizations_docs (db w) !! org_id = None →
   fst r = inl (HTTPException HTTP_404_NOT_FOUND "Error: Organization not found."))
  ∧ (∀ o, Organizations_docs (db w) !! org_id = Some o →
          current_user ∈ Org.members o →
          fst r = inl conflict)
  ∧ (∀ o, Organizations_docs (db w) !! org_id = Some o →
          current_user ∉ Org.members o →
          Org.private o = true →
          fst r = inl (HTTPException HTTP_401_UNAUTHORIZED
                         "Error: Organization is private."))
  ∧ (∀ o u, Organizations_docs (db w) !! org_id = Some o →
            current_user ∉ Org.members o →
            Org.private o = false →
            Users_docs (db w) !! current_user = Some u →
            fst r = inr (Organizations.Created
                           (Organizations.Detail
                              "Success: User added to the organization."))
            ∧ Org.members <$> Organizations_docs (db (snd r)) !! org_id
              = Some (Org.members o ++ [current_user])%list
            ∧ User.organizations <$> Users_docs (db (snd r)) !! current_user
              = Some (User.organizations u ++ [org_id])%list
            ∧ fst (Organizations.add_member validate current_user org_id (snd r))
              = inl conflict)
  ∧ (∀ o, Organizations_docs (db w) !! org_id = Some o →
          current_user ∉ Org.members o →
          Org.private o = false →
          Users_docs (db w) !! current_user = None →
          fst r = inl (HTTPException HTTP_400_BAD_REQUEST
                         "Error: Unable to update user.")
          ∧ Organizations_docs (db (snd r)) !! org_id = Some o)
  ∧ (∀ e, fst r = inl e → db (snd r) = db w)
  ∧ (∀ o, Organizations_docs (db w) !! org_id = Some o →
          Org.private o = true →
          ∃ e, fst r = inl e).
Proof.
  intros Hv Hup r conflict.
  pose proof (add_member_up validate current_user org_id w b Hv Hup) as Hrun.
  fold r in Hrun.
  assert (∀ e, fst r = inl e → db (snd r) = db w) as Hatomic.
  { intros e He. destruct r as [r1 w'] eqn:Hr. simpl in *. subst r1. subst r.
    by apply atomic_add_member in Hr. }
  split; [|split; [|split; [|split; [|split; [|split]]]]].
  - intros Ho. rewrite Hrun, Ho. done.
  - intros o Ho Hm. rewrite Hrun, Ho. by rewrite bool_decide_eq_true_2.
  - intros o Ho Hm Hp. rewrite Hrun, Ho, Hp. by rewrite bool_decide_eq_false_2.
  - intros o u Ho Hm Hp Hu. rewrite Hrun, Ho, Hp, Hu.
    rewrite bool_decide_eq_false_2 by done. simpl.
    rewrite !lookup_insert_eq. repeat split.
    rewrite (add_member_up validate current_user org_id _ b) by done. simpl.
    rewrite lookup_insert_eq. simpl. rewrite bool_decide_eq_true_2; [done|].
    set_solver.
  - intros o Ho Hm Hp Hu. rewrite Hrun, Ho, Hp, Hu.
    by rewrite bool_decide_eq_false_2.
  - done.
  - intros o Ho Hp. by apply (add_member_private_rejects validate _ _ w o).
Qed.

(** ** Paths *)

Lemma split_nonempty sep s : split sep s ≠ [].
Proof.
  destruct s as [|c s]; simpl; [done|].
  destruct (Ascii.eqb c sep); [done|]. by destruct (split sep s).
Qed.

Lemma split_length_cons sep c s :
  (length (split sep s) ≤ length (split sep (String c s)))%nat.
Proof.
  simpl. destruct (Ascii.eqb c sep); simpl; [lia|].
  pose proof (split_nonempty sep s). destruct (split sep s); simpl; [done|lia].
Qed.

(** Up to the first separator. *)
Lemma split_app sep a b :
  has_char sep a = false →
  split sep (a +:+ String sep b) = a :: split sep b.
Proof.
  induction a as [|c a IH]; simpl.
  - intros _. by rewrite Ascii.eqb_refl.
  - intros H. apply orb_false_iff in H as [-> H]. by rewrite IH.
Qed.

Lemma endswith_refl p : endswith p p = true.
Proof. destruct p; cbn [endswith]; by rewrite String.eqb_refl. Qed.

Lemma endswith_app a p : endswith (a +:+ p) p = true.
Proof.
  induction a as [|c a IH].
  - apply endswith_refl.
  - change (String c a +:+ p) with (String c (a +:+ p)).
    cbn [endswith]. rewrite IH. apply orb_true_r.
Qed.

Lemma endswith_app_r a b p : endswith (a +:+ b +:+ p) p = true.
Proof.
  induction a as [|c a IH].
  - exact (endswith_app b p).
  - change (String c a +:+ b +:+ p) with (String c (a +:+ b +:+ p)).
    cbn [endswith]. rewrite IH. apply orb_true_r.
Qed.

(** A string that ends with a separator and more has at least two pieces. *)
Lemma endswith_split sep s p :
  endswith s (String sep p) = true → (2 ≤ length (split sep s))%nat.
Proof.
  induction s as [|c s IH]; [done|]. intros H.
  cbn [endswith] in H. apply orb_true_iff in H as [H|H].
  - apply String.eqb_eq in H. injection H as -> ->. simpl.
    rewrite Ascii.eqb_refl. simpl. pose proof (split_nonempty sep p).
    destruct (split sep p); simpl; [done|lia].
  - specialize (IH H). pose proof (split_length_cons sep c s). lia.
Qed.

(** On the routes of the organization-admin check the path has a third
    piece. *)
Lemma opportunities_route_third_piece request_path request_method :
  Middlewares.opportunities_route request_path request_method = true →
  ∃ organization_id, split "/" request_path !! 2%nat = Some organization_id.
Proof.
  unfold Middlewares.opportunities_route. intros H.
  apply andb_true_iff in H as [_ H]. apply andb_true_iff in H as [Hp Hs].
  destruct request_path as [|c rest]; [done|].
  cbn [startswith] in Hp. apply andb_true_iff in Hp as [Hc Hp].
  apply Ascii.eqb_eq in Hc as ->.
  cbn [endswith] in Hs. apply orb_true_iff in Hs as [Hs|Hs].
  - apply String.eqb_eq in Hs. injection Hs as ->. done.
  - apply endswith_split in Hs. change (split "/" (String "/" rest))
      with (EmptyString :: split "/" rest).
    apply lookup_lt_is_Some_2. simpl. lia.
Qed.

(** ** The authorization gate *)

Section GateFacts.
Import Middlewares.
Variable validate : list string → result bool.
Variable Users_is_authorized_user : string → M unit.

Lemma check_authorization_exempt current_user request_path request_method w :
  is_unauthorized_endpoint request_path request_method = true →
  check_authorization validate Users_is_authorized_user current_user
    request_path request_method w = (inr tt, w).
Proof. intros H. unfold check_authorization. by rewrite H. Qed.

(** The two route conditions exclude each other. *)
Lemma routes_disjoint request_path request_method :
  activation_route request_path request_method = true →
  opportunities_route request_path request_method = false.
Proof.
  unfold activation_route, opportunities_route. intros H.
  apply orb_true_iff in H as [H|H]; apply andb_true_iff in H as [H1 H2];
    apply String.eqb_eq in H1, H2; subst; reflexivity.
Qed.

Lemma check_authorization_activation current_user request_path request_method w :
  is_unauthorized_endpoint request_path request_method = false →
  activation_route request_path request_method = true →
  check_authorization validate Users_is_authorized_user (Some current_user)
    request_path request_method w
  = match Users_is_authorized_user current_user w with
    | (inr _, w') => (inr tt, w')
    | (inl _, w') =>
        (inl (Exception (ArgStr
           "User is not authorized to access this resource, please activate your account.")),
         w')
    end.
Proof.
  intros Hx Ha. unfold check_authorization.
  rewrite Hx, Ha, (routes_disjoint _ _ Ha).
  rewrite run_bind. unfold try_except.
  by destruct (Users_is_authorized_user current_user w) as [[e|[]] w'].
Qed.

Lemma check_authorization_opportunities current_user request_path
    request_method w organization_id :
  is_unauthorized_endpoint request_path request_method = false →
  opportunities_route request_path request_method = true →
  split "/" request_path !! 2%nat = Some organization_id →
  check_authorization validate Users_is_authorized_user (Some current_user)
    request_path request_method w
  = match Organizations.is_authorized_user validate organization_id
            current_user w with
    | (inr _, w') => (inr tt, w')
    | (inl _, w') =>
        (inl (Exception (ArgStr
           "User is not authorized to access this resource.")), w')
    end.
Proof.
  intros Hx Ho Hid. unfold check_authorization. rewrite Hx, Ho.
  destruct (activation_route request_path request_method) eqn:Ha.
  { apply routes_disjoint in Ha. congruence. }
  rewrite run_bind. simpl. rewrite run_bind. unfold try_except.
  rewrite run_bind. unfold lift, index. rewrite Hid.
  by destruct (Organizations.is_authorized_user _ _ _ w) as [[e|[]] w'].
Qed.

Lemma check_authorization_other current_user request_path request_method w :
  is_unauthorized_endpoint request_path request_method = false →
  activation_route request_path request_method = false →
  opportunities_route request_path request_method = false →
  check_authorization validate Users_is_authorized_user (Some current_user)
    request_path request_method w = (inr tt, w).
Proof.
  intros Hx Ha Ho. unfold check_authorization. by rewrite Hx, Ha, Ho.
Qed.

End GateFacts.

(** C7, as stated, fails.  A POST to ["/organizationsX/opportunities"] is
    outside the exempt list, is no activation route and is no path
    [/organizations/{id}/opportunities], whatever the [{id}]; the claim lets
    it through on a user id alone.  The code runs the organization-admin
    check on the piece "opportunities" and rejects the caller. *)
Lemma check_authorization_admin_check_beyond_shape :
  let request_path := "/organizationsX/opportunities" in
  Middlewares.is_unauthorized_endpoint request_path "POST" = false
  ∧ Middlewares.activation_route request_path "POST" = false
  ∧ ¬ opportunities_shape request_path
  ∧ Middlewares.check_authorization accepting (λ _, mret tt) (Some "U1")
      request_path "POST" world_acme
    = (inl (Exception (ArgStr "User is not authorized to access this resource.")),
       world_acme).
Proof.
  split; [reflexivity|]. split; [reflexivity|]. split.
  - intros [id Hid]. simpl in Hid. discriminate Hid.
  - vm_compute. reflexivity.
Qed.

(** C7, amended.  Outside the exempt list: without a user id the call raises
    "please login"; on (POST, /organizations) and (GET, /ws), and only
    there, its outcome is that of the activated-user check; on the POST
    requests whose path starts with "/organizations" and ends with
    "/opportunities", and only there, its outcome is that of
    Organizations.is_authorized_user on the third piece of the path, which
    for /organizations/{id}/opportunities is {id}; everywhere else it
    returns with nothing touched. *)
Theorem check_authorization_routes
    (validate : list string → result bool)
    (Users_is_authorized_user : string → M unit)
    (current_user request_path request_method : string) (w : World) :
  Middlewares.is_unauthorized_endpoint request_path request_method = false →
  let check := Middlewares.check_authorization validate Users_is_authorized_user in
  let r := check (Some current_user) request_path request_method w in
  check None request_path request_method w = (inl Middlewares.please_login, w)
  ∧ (Middlewares.activation_route request_path request_method = true
     ↔ (request_method = "POST" ∧ request_path = "/organizations")
       ∨ (request_path = "/ws" ∧ request_method = "GET"))
  ∧ (Middlewares.activation_route request_path request_method = true →
     r = match Users_is_authorized_user current_user w with
         | (inr _, w') => (inr tt, w')
         | (inl _, w') =>
             (inl (Exception (ArgStr
                "User is not authorized to access this resource, please activate your account.")),
              w')
         end)
  ∧ (Middlewares.opportunities_route request_path request_method = true
     ↔ request_method = "POST"
       ∧ startswith request_path "/organizations" = true
       ∧ endswith request_path "/opportunities" = true)
  ∧ (Middlewares.opportunities_route request_path request_method = true →
     ∃ organization_id,
       split "/" request_path !! 2%nat = Some organization_id
       ∧ r = match Organizations.is_authorized_user validate organization_id
                     current_user w with
             | (inr _, w') => (inr tt, w')
             | (inl _, w') =>
                 (inl (Exception (ArgStr
                    "User is not authorized to access this resource.")), w')
             end)
  ∧ (Middlewares.activation_route request_path request_method = false →
     Middlewares.opportunities_route request_path request_method = false →
     r = (inr tt, w))
  ∧ (∀ id, has_char "/" id = false →
       let p := "/organizations/" +:+ id +:+ "/opportunities" in
       Middlewares.opportunities_route p "POST" = true
       ∧ split "/" p !! 2%nat = Some id).
Proof.
  intros Hx check r.
  split; [|split; [|split; [|split; [|split; [|split]]]]].
  - subst check. unfold Middlewares.check_authorization. by rewrite Hx.
  - unfold Middlewares.activation_route.
    rewrite orb_true_iff, !andb_true_iff, !String.eqb_eq. done.
  - intros Ha. by apply check_authorization_activation.
  - unfold Middlewares.opportunities_route.
    rewrite !andb_true_iff, String.eqb_eq. done.
  - intros Ho.
    destruct (opportunities_route_third_piece _ _ Ho) as [organization_id Hid].
    exists organization_id. split; [done|].
    by apply check_authorization_opportunities.
  - intros Ha Ho. by apply check_authorization_other.
  - intros id Hid p. split.
    + unfold Middlewares.opportunities_route. subst p.
      apply andb_true_iff. split; [reflexivity|].
      apply andb_true_iff. split; [reflexivity|].
      apply endswith_app_r.
    + subst p.
      change ("/organizations/" +:+ id +:+ "/opportunities")
        with (String "/" ("organizations" +:+ String "/" (id +:+ String "/" "opportunities"))).
      change (split "/" (String "/" ?s)) with (EmptyString :: split "/" s).
      rewrite (split_app "/" "organizations") by reflexivity.
      rewrite (split_app "/" id) by done. reflexivity.
Qed.

(** C10.  For every (path, method) of the exempt list, POST /users among
    them, check_authorization returns without a user id, and touches
    nothing. *)
Theorem check_authorization_exempt_without_token
    (validate : list string → result bool)
    (Users_is_authorized_user : string → M unit)
    (request_path request_method : string) (w : World) :
  (request_path, request_method) ∈ Middlewares.UNAUTHORIZED_ENDPOINTS →
  Middlewares.check_authorization validate Users_is_authorized_user None
    request_path request_method w = (inr tt, w)
  ∧ ("/users", "POST") ∈ Middlewares.UNAUTHORIZED_ENDPOINTS.
Proof.
  intros Hin. split.
  - apply check_authorization_exempt.
    unfold Middlewares.is_unauthorized_endpoint. by apply bool_decide_eq_true_2.
  - unfold Middlewares.UNAUTHORIZED_ENDPOINTS. repeat constructor.
Qed.

(** C8, counterexample.  A header without a second piece and a token that
    the codec rejects are both refused with "please login", yet not with
    identical exceptions: each carries the error of its [try] block as
    [__cause__], and for the rejected token that is the error of the codec
    as the codec raised it. *)
Lemma authentication_handler_cause_differs :
  let auth := Middlewares.authentication_handler accepting decode_one in
  ∃ r r',
    auth (Some "good") = inl r
    ∧ auth (Some "Bearer forged") = inl r'
    ∧ r ≠ r'
    ∧ cause r' = Exception (ArgStr "Signature verification failed").
Proof.
  eexists _, _. split; [reflexivity|]. split; [reflexivity|].
  split; [discriminate|reflexivity].
Qed.

(** C8, amended.  Whatever the validator and the token codec do, every
    failure of authentication_handler raises the one "please login"
    exception, the same in type and message, and that exception carries the
    error of the [try] block as its [__cause__]: the AttributeError of a
    missing token, the IndexError of a token without a second piece, the
    error of the codec for a token it rejects, the KeyError of a decoded
    token without user id, the inner "please login" for a user id None or
    one the validator answers with a true result, and the error of the
    validator when it raises.  Two failing calls, even with different
    codecs and validators, raise exceptions of the same type and message. *)
Theorem authentication_handler_uniform_failure
    (validate : list string → result bool)
    (decode : string → result (gmap string (option string))) :
  let auth := Middlewares.authentication_handler validate decode in
  let login_from := raise_from Middlewares.please_login in
  (∀ token r, auth token = inl r →
     exception r = Middlewares.please_login
     ∧ Middlewares.authentication_handler_block validate decode token
       = inl (cause r))
  ∧ auth None
    = inl (login_from
             (AttributeError "'NoneType' object has no attribute 'split'"))
  ∧ (∀ token, split " " token !! 1%nat = None →
       auth (Some token)
       = inl (login_from (IndexError "list index out of range")))
  ∧ (∀ token bearer,
       split " " token !! 1%nat = Some bearer →
       match decode bearer with
       | inl e => auth (Some token) = inl (login_from e)
       | inr data =>
           match data !! "user_id" with
           | None => auth (Some token) = inl (login_from (KeyError "user_id"))
           | Some None =>
               auth (Some token) = inl (login_from Middlewares.please_login)
           | Some (Some current_user) =>
               match validate [current_user] with
               | inl e => auth (Some token) = inl (login_from e)
               | inr true =>
                   auth (Some token) = inl (login_from Middlewares.please_login)
               | inr false => auth (Some token) = inr current_user
               end
           end
       end)
  ∧ (∀ validate' decode' token token' r r',
       auth token = inl r →
       Middlewares.authentication_handler validate' decode' token' = inl r' →
       exception r = exception r').
Proof.
  intros auth login_from.
  assert (∀ v d token r,
            Middlewares.authentication_handler v d token = inl r →
            exception r = Middlewares.please_login
            ∧ Middlewares.authentication_handler_block v d token
              = inl (cause r)) as Huniform.
  { intros v d token r. unfold Middlewares.authentication_handler.
    destruct (Middlewares.authentication_handler_block v d token) as [e|u];
      [|discriminate].
    by intros [= <-]. }
  split; [by apply Huniform|]. split; [reflexivity|]. split; [|split].
  - intros token Hs. subst auth.
    unfold Middlewares.authentication_handler,
      Middlewares.authentication_handler_block.
    simpl. unfold index. by rewrite Hs.
  - intros token bearer Hs. subst auth.
    unfold Middlewares.authentication_handler,
      Middlewares.authentication_handler_block.
    simpl. unfold index. rewrite Hs. simpl.
    destruct (decode bearer) as [e|data]; simpl; [done|].
    destruct (data !! "user_id") as [[current_user|]|]; simpl; try done.
    by destruct (validate [current_user]) as [e|[]].
  - intros v d token token' r r' H1 H2.
    apply Huniform in H1 as [-> _]. by apply Huniform in H2 as [-> _].
Qed.

Lemma delete_organization_cleanup_failure_witness :
  let r := Organizations.delete_organization accepting "U1" "O1" world_stale in
  cleanup_count "O1" (Org.members acme) (Users_docs (db world_stale)) = 0%nat
  ∧ fst r = inl (HTTPException HTTP_400_BAD_REQUEST "Error: Unable to update user.")
  ∧ Organizations_docs (db (snd r)) !! "O1" = Some acme.
Proof.
  destruct (delete_organization_cleanup_failure_keeps_organization accepting
              "U1" "O1" world_stale acme eq_refl ltac:(discriminate) eq_refl)
    as (_ & _ & Horg & Hfail).
  split; [reflexivity|].
  split; [exact (Hfail false eq_refl eq_refl eq_refl) | exact Horg].
Defined.

Lemma create_organization_witness :
  let r := Organizations.create_organization accepting "U2"
             {| schema_name := "Beta"; schema_description := "";
                schema_private := false |} "O3" world_acme in
  ∃ o u, Organizations_docs (db (snd r)) !! "O3" = Some o
         ∧ Org.admins o = ["U2"]
         ∧ Org.members o = ["U2"]
         ∧ Org.created_by o = "U2"
         ∧ Users_docs (db (snd r)) !! "U2" = Some u
         ∧ "O3" ∈ User.organizations u.
Proof.
  destruct (create_organization_owner_is_sole_member accepting "U2"
              {| schema_name := "Beta"; schema_description := "";
                 schema_private := false |} "O3" world_acme) as [Hany _].
  destruct (Hany _ eq_refl) as (o & u & H1 & H2 & H3 & H4 & _ & H5 & H6).
  exists o, u. repeat split; assumption.
Defined.

Lemma add_member_witness :
  let r := Organizations.add_member accepting "U2" "O1" world_acme in
  fst r = inr (Organizations.Created
                 (Organizations.Detail "Success: User added to the organization."))
  ∧ Org.members <$> Organizations_docs (db (snd r)) !! "O1"
    = Some ["U1"; "U3"; "U2"]
  ∧ fst (Organizations.add_member accepting "U2" "O1" (snd r))
    = inl (HTTPException HTTP_400_BAD_REQUEST
             "Error: User is already a member of the organization.")
  ∧ (∃ e, fst (Organizations.add_member accepting "U2" "O2" world_acme) = inl e).
Proof.
  destruct (add_member_checks_in_order_and_atomic accepting "U2" "O1"
              world_acme false eq_refl eq_refl) as (_ & _ & _ & Hjoin & _).
  destruct (Hjoin acme (User.Build []) eq_refl ltac:(compute_done) eq_refl eq_refl)
    as (H1 & H2 & _ & H3).
  destruct (add_member_checks_in_order_and_atomic accepting "U2" "O2"
              world_acme false eq_refl eq_refl) as (_ & _ & _ & _ & _ & _ & Hprivate).
  split; [exact H1|]. split; [exact H2|]. split; [exact H3|].
  exact (Hprivate vault eq_refl eq_refl).
Defined.

Lemma is_authorized_user_witness :
  fst (Organizations.is_authorized_user accepting "O1" "U3" world_acme) = inr tt
  ∧ fst (Organizations.is_authorized_user accepting "O1" "U2" world_acme)
    = inl (HTTPException HTTP_401_UNAUTHORIZED "Error: Unauthorized user.")
  ∧ fst (Organizations.is_authorized_user accepting "O9" "U1" world_acme)
    = inl (HTTPException HTTP_401_UNAUTHORIZED "Error: Unauthorized user.").
Proof.
  destruct (is_authorized_user_iff_admin accepting "O1" "U3" world_acme false
              eq_refl eq_refl) as ([_ Hadmin] & _).
  destruct (is_authorized_user_iff_admin accepting "O1" "U2" world_acme false
              eq_refl eq_refl) as (_ & Hother & _).
  destruct (is_authorized_user_iff_admin accepting "O9" "U1" world_acme false
              eq_refl eq_refl) as (_ & _ & Habsent & _).
  split; [|split].
  - apply Hadmin. exists acme. split; [reflexivity | compute_done].
  - apply Hother. intros (o & Ho & Hin). vm_compute in Ho. injection Ho as <-.
    revert Hin. compute_done.
  - apply Habsent. reflexivity.
Defined.

Lemma create_organization_failures_witness :
  let beta := {| schema_name := "Beta"; schema_description := "";
                 schema_private := false |} in
  let again := {| schema_name := "Acme"; schema_description := "";
                  schema_private := false |} in
  let r1 := Organizations.create_organization accepting "U9" beta "O3" world_acme in
  let r2 := Organizations.create_organization accepting "U2" again "O3" world_acme in
  (fst r1 = inl (HTTPException HTTP_400_BAD_REQUEST "Error: Unable to update user")
   ∧ Organizations_docs (db (snd r1)) !! "O3" = None)
  ∧ (fst r2 = inl (HTTPException HTTP_400_BAD_REQUEST
                     "Error: Organization already exists with this name.")
     ∧ Users_docs (db (snd r2)) !! "U2" = Users_docs (db world_acme) !! "U2").
Proof.
  intros beta again r1 r2. split.
  - destruct (create_organization_failures_write_nothing accepting "U9" beta
                "O3" world_acme false eq_refl eq_refl) as [Hpush _].
    destruct Hpush as (H1 & _ & H2); [reflexivity| |reflexivity|by split].
    intros k o Hk.
    assert (k = "O1" ∨ k = "O2" ∨ Organizations_docs (db world_acme) !! k = None)
      as [-> | [-> | Hn]].
    { destruct (decide (k = "O1")); [by auto|].
      destruct (decide (k = "O2")); [by auto|]. right; right.
      unfold world_acme. simpl. rewrite lookup_insert_ne by done.
      by rewrite lookup_singleton_ne. }
    + vm_compute in Hk. injection Hk as <-. discriminate.
    + vm_compute in Hk. injection Hk as <-. discriminate.
    + congruence.
  - destruct (create_organization_failures_write_nothing accepting "U2" again
                "O3" world_acme false eq_refl eq_refl) as [_ Hname].
    destruct (Hname "O1" acme eq_refl eq_refl) as (H1 & _ & H2). by split.
Defined.

Lemma delete_organization_only_by_creator_witness :
  let r := Organizations.delete_organization accepting "U3" "O1" world_acme in
  "U3" ∈ Org.admins acme
  ∧ fst r = inl (HTTPException HTTP_401_UNAUTHORIZED "Error: Unauthorized user.")
  ∧ Organizations_docs (db (snd r)) !! "O1" = Some acme
  ∧ ∃ resp, fst (Organizations.delete_organization accepting "U1" "O1" world_acme)
            = inr resp.
Proof.
  destruct (delete_organization_only_by_creator accepting "U3" "O1" world_acme)
    as [_ Hother].
  destruct (Hother acme eq_refl ltac:(discriminate)) as (_ & _ & Horg & Hfail).
  split; [compute_done|]. split; [exact (Hfail false eq_refl eq_refl)|].
  split; [exact Horg|]. eexists. reflexivity.
Defined.

Lemma check_authorization_routes_witness :
  let check := Middlewares.check_authorization accepting (λ _, mret tt) in
  fst (check (Some "U3") "/organizations/O1/opportunities" "POST" world_acme)
  = inr tt
  ∧ fst (check (Some "U2") "/organizations/O1/opportunities" "POST" world_acme)
    = inl (Exception (ArgStr "User is not authorized to access this resource."))
  ∧ check (Some "U2") "/organizations/O1" "GET" world_acme = (inr tt, world_acme).
Proof.
  intros check. split; [|split].
  - destruct (check_authorization_routes accepting (λ _, mret tt) "U3"
                "/organizations/O1/opportunities" "POST" world_acme eq_refl)
      as (_ & _ & _ & _ & Hadmin & _).
    destruct (Hadmin eq_refl) as (organization_id & Hid & Hr).
    injection Hid as <-. unfold check. rewrite Hr. reflexivity.
  - destruct (check_authorization_routes accepting (λ _, mret tt) "U2"
                "/organizations/O1/opportunities" "POST" world_acme eq_refl)
      as (_ & _ & _ & _ & Hadmin & _).
    destruct (Hadmin eq_refl) as (organization_id & Hid & Hr).
    injection Hid as <-. unfold check. rewrite Hr. reflexivity.
  - destruct (check_authorization_routes accepting (λ _, mret tt) "U2"
                "/organizations/O1" "GET" world_acme eq_refl)
      as (_ & _ & _ & _ & _ & Hother & _).
    exact (Hother eq_refl eq_refl).
Defined.

Lemma authentication_handler_witness :
  let auth := Middlewares.authentication_handler accepting decode_one in
  let login_from := raise_from Middlewares.please_login in
  auth (Some "Bearer good") = inr "U1"
  ∧ auth None
    = inl (login_from
             (AttributeError "'NoneType' object has no attribute 'split'"))
  ∧ auth (Some "good")
    = inl (login_from (IndexError "list index out of range"))
  ∧ auth (Some "Bearer forged")
    = inl (login_from (Exception (ArgStr "Signature verification failed"))).
Proof.
  destruct (authentication_handler_uniform_failure accepting decode_one)
    as (_ & Hmissing & Hmalformed & Hdecoded & _).
  split; [exact (Hdecoded "Bearer good" "good" eq_refl)|].
  split; [exact Hmissing|].
  split; [exact (Hmalformed "good" eq_refl)|].
  exact (Hdecoded "Bearer forged" "forged" eq_refl).
Defined.

Lemma delete_organization_session_witness :
  live_sessions world_acme = 0%nat
  ∧ live_sessions
      (snd (Organizations.delete_organization accepting "U1" "O1" world_acme))
    = 1%nat
  ∧ live_sessions
      (snd (Organizations.delete_organization accepting "U3" "O1" world_acme))
    = 1%nat
  ∧ live_sessions
      (snd (Organizations.add_member accepting "U2" "O1" world_acme))
    = 0%nat.
Proof.
  destruct (delete_organization_session_not_released accepting "U1" "O1"
              world_acme false eq_refl ltac:(discriminate)) as (Hleak & _ & _ & Hadd).
  destruct (delete_organization_session_not_released accepting "U3" "O1"
              world_acme false eq_refl ltac:(discriminate)) as (Hleak' & _).
  split; [reflexivity|]. split; [exact Hleak|]. split; [exact Hleak'|].
  exact (Hadd "U2" "O1" world_acme).
Defined.

Lemma check_authorization_exempt_witness :
  Middlewares.check_authorization accepting (λ _, mret tt) None "/users" "POST"
    world_acme = (inr tt, world_acme).
Proof.
  destruct (check_authorization_exempt_without_token accepting (λ _, mret tt)
              "/users" "POST" world_acme) as [H _]; [compute_done|exact H].
Defined.

(** * Further properties of the organization store *)

(** ** What a returning call has written *)

Lemma delete_one_returns {D} (c : Collection D) k w n w' :
  delete_one c k w = (inr n, w') →
  match docs c (db w) !! k with
  | Some _ => n = 1%nat ∧ db w' = put c (delete k (docs c (db w))) (db w)
  | None => n = 0%nat ∧ db w' = db w
  end.
Proof.
  unfold delete_one. intros H. apply run_bind_inr in H as ([] & w1 & Hr & H).
  apply readonly_roundtrip in Hr. rewrite run_bind in H. simpl in H.
  rewrite Hr in H.
  destruct (docs c (db w) !! k); injection H as <- <-; simpl; rewrite ?Hr; done.
Qed.

Lemma update_many_returns {D} (c : Collection D) sel op w n w' :
  update_many c sel op w = (inr n, w') →
  n = size (modified sel op (docs c (db w)))
  ∧ db w' = put c (modified sel op (docs c (db w)) ∪ docs c (db w)) (db w).
Proof.
  unfold update_many. intros H. apply run_bind_inr in H as ([] & w1 & Hr & H).
  apply readonly_roundtrip in Hr. injection H as <- <-. simpl. by rewrite Hr.
Qed.

Lemma roundtrip_frame w r w' :
  roundtrip w = (r, w') →
  db w' = db w ∧ background_tasks w' = background_tasks w
  ∧ live_sessions w' = live_sessions w.
Proof.
  unfold roundtrip. destruct (outage w) as [[|n]|]; by intros [= <- <-].
Qed.

Lemma start_session_frame w r w' :
  start_session w = (r, w') →
  db w' = db w ∧ background_tasks w' = background_tasks w.
Proof. by intros [= <- <-]. Qed.

Lemma start_transaction_returns {A} s (body : M A) w a w' :
  start_transaction s body w = (inr a, w') →
  ∃ w1, body w = (inr a, w1) ∧ db w' = db w1
        ∧ background_tasks w' = background_tasks w1.
Proof.
  unfold start_transaction. destruct (body w) as [[e1|a1] w1]; [discriminate|].
  destruct (roundtrip w1) as [[e|[]] w2] eqn:Hr; [discriminate|].
  apply roundtrip_frame in Hr as (Hd & Ht & _). intros [= <- <-]. eauto.
Qed.

(** The session block around a transaction that returned. *)
Lemma session_block_returns {A} (body : M A) h w a w' :
  reraising h →
  try_assign start_session (λ s, start_transaction s body) h
    Organizations.finally_end_session w = (inr a, w') →
  ∃ w0 w1, db w0 = db w ∧ background_tasks w0 = background_tasks w
           ∧ body w0 = (inr a, w1)
           ∧ db w' = db w1 ∧ background_tasks w' = background_tasks w1.
Proof.
  intros Hh. unfold try_assign.
  destruct (start_session w) as [[e1|s] w1] eqn:Hs;
    apply start_session_frame in Hs as [Hd Ht]; unfold try_finally.
  - destruct (Hh e1 w1) as [e' ->]. simpl. discriminate.
  - destruct (try_except _ h w1) as [r w2] eqn:Hb.
    rewrite finally_end_session_bound. intros [= -> <-]. simpl.
    apply try_except_inr in Hb; [|done].
    apply start_transaction_returns in Hb as (w4 & Hb & Hd4 & Ht4).
    exists w1, w4. repeat split; congruence.
Qed.

Section Returns.
Import Organizations.
Variable validate : list string → result bool.

Lemma create_organization_returns owner payload new_id w resp w' :
  create_organization validate owner payload new_id w = (inr resp, w') →
  ∃ u, Organizations_docs (db w) !! new_id = None
       ∧ name_index (new_organization owner payload) (Organizations_docs (db w))
         = false
       ∧ Users_docs (db w) !! owner = Some u
       ∧ db w'
         = {| Organizations_docs :=
                <[new_id := new_organization owner payload]>
                  (Organizations_docs (db w));
              Users_docs :=
                <[owner := User.Build (User.organizations u ++ [new_id])%list]>
                  (Users_docs (db w));
              Opportunities_docs := Opportunities_docs (db w) |}.
Proof.
  unfold create_organization. rewrite run_validated.
  destruct (validate _); [discriminate|]. intros H.
  apply session_block_returns in H as (w0 & w1 & Hd0 & _ & H & Hd1 & _);
    [|apply reraising_create_organization_handlers].
  unfold create_organization_transaction in H.
  apply run_bind_inr in H as (k & w2 & Hins & H).
  apply insert_one_inr in Hins as (-> & Hnew & Hidx & Hd2).
  apply run_bind_inr in H as (n & w3 & Hupd & H).
  apply update_one_inr in Hupd. simpl in Hupd, Hnew, Hidx, Hd2.
  rewrite Hd2 in Hupd. simpl in Hupd. rewrite Hd0 in *.
  apply run_bind_inr in H as ([] & w4 & Hc & H).
  destruct (Users_docs (db w) !! owner) as [u|] eqn:Hu; simpl in Hupd.
  - destruct Hupd as [-> Hd3]. injection Hc as <-. injection H as <- <-.
    exists u. repeat split; try done. by rewrite Hd1, Hd3.
  - destruct Hupd as [-> _]. discriminate.
Qed.

Lemma add_member_returns current_user org_id w resp w' :
  add_member validate current_user org_id w = (inr resp, w') →
  ∃ o u, Organizations_docs (db w) !! org_id = Some o
         ∧ (current_user ∉ Org.members o)
         ∧ Org.private o = false
         ∧ Users_docs (db w) !! current_user = Some u
         ∧ db w'
           = {| Organizations_docs :=
                  <[org_id := with_members o (Org.members o ++ [current_user])%list]>
                    (Organizations_docs (db w));
                Users_docs :=
                  <[current_user :=
                      User.Build (User.organizations u ++ [org_id])%list]>
                    (Users_docs (db w));
                Opportunities_docs := Opportunities_docs (db w) |}.
Proof.
  unfold add_member. rewrite run_validated.
  destruct (validate _); [discriminate|]. intros H.
  apply session_block_returns in H as (w0 & w1 & Hd0 & _ & H & Hd1 & _);
    [|apply reraising_handlers].
  unfold add_member_transaction in H.
  apply run_bind_inr in H as (r & w2 & Hf & H).
  apply find_one_inr in Hf as [-> Hd2]. simpl in H. rewrite Hd0 in *.
  destruct (Organizations_docs (db w) !! org_id) as [o|] eqn:Ho; [|discriminate].
  simpl in H. case_bool_decide as Hm; [discriminate|].
  destruct (Org.private o) eqn:Hp; [discriminate|].
  apply run_bind_inr in H as (n1 & w3 & Hu1 & H).
  apply update_one_inr in Hu1. simpl in Hu1. rewrite Hd2, Ho in Hu1.
  simpl in Hu1. destruct Hu1 as [-> Hd3].
  apply run_bind_inr in H as ([] & w4 & Hc1 & H). injection Hc1 as <-.
  apply run_bind_inr in H as (n2 & w5 & Hu2 & H).
  apply update_one_inr in Hu2. simpl in Hu2. rewrite Hd3 in Hu2. simpl in Hu2.
  apply run_bind_inr in H as ([] & w6 & Hc2 & H).
  destruct (Users_docs (db w) !! current_user) as [u|] eqn:Hu; simpl in Hu2.
  - destruct Hu2 as [-> Hd5]. injection Hc2 as <-. injection H as <- <-.
    exists o, u. repeat split; try done.
    rewrite Hd1, Hd5. unfold with_members. by rewrite Hp.
  - destruct Hu2 as [-> _]. discriminate.
Qed.

Lemma delete_organization_returns current_user org_id w resp w' :
  delete_organization validate current_user org_id w = (inr resp, w') →
  ∃ o, Organizations_docs (db w) !! org_id = Some o
       ∧ current_user = Org.created_by o
       ∧ cleanup_count org_id (Org.members o) (Users_docs (db w)) ≠ 0%nat
       ∧ db w'
         = {| Organizations_docs := delete org_id (Organizations_docs (db w));
              Users_docs :=
                cleaned_users org_id (Org.members o) (Users_docs (db w));
              Opportunities_docs := Opportunities_docs (db w) |}.
Proof.
  intros H. apply delete_organization_inr in H as (w0 & w1 & Hd0 & H & Hd1).
  unfold delete_organization_transaction in H.
  apply run_bind_inr in H as (r & w2 & Hf & H).
  apply find_one_inr in Hf as [-> Hd2]. simpl in H. rewrite Hd0 in *.
  destruct (Organizations_docs (db w) !! org_id) as [o|] eqn:Ho; [|discriminate].
  simpl in H.
  destruct (String.eqb current_user (Org.created_by o)) eqn:Heq; [|discriminate].
  apply String.eqb_eq in Heq. simpl in H.
  apply run_bind_inr in H as (n1 & w3 & Hdel & H).
  apply delete_one_returns in Hdel. simpl in Hdel. rewrite Hd2, Ho in Hdel.
  destruct Hdel as [-> Hd3].
  apply run_bind_inr in H as ([] & w4 & Hc1 & H). injection Hc1 as <-.
  apply run_bind_inr in H as (n2 & w5 & Hupd & H).
  apply update_many_returns in Hupd as [-> Hd5]. simpl in Hd5.
  rewrite Hd3 in Hd5. simpl in Hd5. rewrite Hd3 in H. simpl in H.
  apply run_bind_inr in H as ([] & w6 & Hc2 & H).
  destruct (Nat.eqb _ 0) eqn:Hn; [discriminate|]. apply Nat.eqb_neq in Hn.
  injection Hc2 as <-. injection H as <- <-.
  exists o. repeat split; try done. by rewrite Hd1, Hd5.
Qed.

Lemma create_opportunity_returns current_user org_id opportunity new_id w resp w' :
  create_opportunity validate current_user org_id opportunity new_id w
  = (inr resp, w') →
  ∃ o, Opportunities_docs (db w) !! new_id = None
       ∧ Organizations_docs (db w) !! org_id = Some o
       ∧ db w'
         = {| Organizations_docs :=
                <[org_id := with_opportunities o
                              (Org.opportunities o ++ [new_id])%list]>
                  (Organizations_docs (db w));
              Users_docs := Users_docs (db w);
              Opportunities_docs :=
                <[new_id := Opp.Build org_id current_user opportunity]>
                  (Opportunities_docs (db w)) |}
       ∧ background_tasks w'
         = (background_tasks w
            ++ [(org_id, (new_id, Opp.Build org_id current_user opportunity))])%list
       ∧ resp = Created (OpportunityBody new_id
                           (Opp.Build org_id current_user opportunity)).
Proof.
  unfold create_opportunity. rewrite run_validated.
  destruct (validate _); [discriminate|]. intros H.
  apply session_block_returns in H as (w0 & w1 & Hd0 & Ht0 & H & Hd1 & Ht1);
    [|apply reraising_handlers].
  unfold create_opportunity_transaction in H.
  apply run_bind_inr in H as (k & w2 & Hins & H).
  assert (background_tasks w2 = background_tasks w0) as Ht2.
  { unfold insert_one in Hins. apply run_bind_inr in Hins as ([] & w9 & Hr & Hins).
    apply roundtrip_frame in Hr as (_ & Ht & _). rewrite run_bind in Hins.
    simpl in Hins. destruct (_ || _); [discriminate|].
    injection Hins as _ <-. done. }
  apply insert_one_inr in Hins as (-> & Hnew & _ & Hd2).
  apply run_bind_inr in H as (n & w3 & Hupd & H).
  assert (background_tasks w3 = background_tasks w2) as Ht3.
  { unfold update_one in Hupd. apply run_bind_inr in Hupd as ([] & w9 & Hr & Hupd).
    apply roundtrip_frame in Hr as (_ & Ht & _). rewrite run_bind in Hupd.
    simpl in Hupd. destruct (_ ≫= _); injection Hupd as _ <-; done. }
  apply update_one_inr in Hupd. simpl in Hupd, Hnew, Hd2.
  rewrite Hd2 in Hupd. simpl in Hupd. rewrite Hd0 in *.
  apply run_bind_inr in H as ([] & w4 & Hc & H).
  destruct (Organizations_docs (db w) !! org_id) as [o|] eqn:Ho; simpl in Hupd.
  - destruct Hupd as [-> Hd3]. injection Hc as <-.
    apply run_bind_inr in H as ([] & w5 & Hm & H).
    injection Hm as <-. injection H as <- <-.
    exists o. repeat split; try done.
    + rewrite Hd1. simpl. by rewrite Hd3.
    + rewrite Ht1. simpl. congruence.
  - destruct Hupd as [-> _]. discriminate.
Qed.

End Returns.

(** ** One call, one step *)

Lemma readonly_is_authorized_user validate org_id user_id :
  readonly (Organizations.is_authorized_user validate org_id user_id).
Proof.
  intros w r w'. unfold Organizations.is_authorized_user.
  rewrite run_validated. destruct (validate _); [by intros [= <- <-]|].
  unfold try_finally, try_except, Organizations.is_authorized_user_query.
  rewrite run_bind.
  destruct (find_one _ _ _ w) as [[e|o] w1] eqn:Hf.
  - unfold find_one in Hf. rewrite run_bind in Hf.
    destruct (roundtrip w) as [[e1|[]] w2] eqn:Hr; [|discriminate].
    apply roundtrip_frame in Hr as (Hd & _). injection Hf as <- <-.
    destruct (reraising_handlers (A:=unit) e1 w2) as [e' ->]. simpl.
    by intros [= <- <-].
  - apply find_one_inr in Hf as [_ Hd]. destruct o as [o|].
    + simpl. by intros [= <- <-].
    + simpl. by intros [= <- <-].
Qed.

Lemma after_store_step validate c w : store_step (db w) (db (after validate c w)).
Proof.
  destruct c as [u p i|u o p i|o u|u o|u o]; simpl.
  - destruct (Organizations.create_organization validate u p i w)
      as [[e|resp] w'] eqn:H; simpl.
    + apply atomic_create_organization in H. rewrite H. constructor.
    + apply create_organization_returns in H as (usr & Hn & _ & Hu & ->).
      by apply step_created.
  - destruct (Organizations.create_opportunity validate u o p i w)
      as [[e|resp] w'] eqn:H; simpl.
    + apply atomic_create_opportunity in H. rewrite H. constructor.
    + apply create_opportunity_returns in H as (org & Hn & Ho & -> & _).
      by apply step_opportunity.
  - destruct (Organizations.is_authorized_user validate o u w) as [r w'] eqn:H.
    apply readonly_is_authorized_user in H. simpl. rewrite H. constructor.
  - destruct (Organizations.add_member validate u o w)
      as [[e|resp] w'] eqn:H; simpl.
    + apply atomic_add_member in H. rewrite H. constructor.
    + apply add_member_returns in H as (org & usr & Ho & Hm & Hp & Hu & ->).
      by apply step_joined.
  - destruct (Organizations.delete_organization validate u o w)
      as [[e|resp] w'] eqn:H; simpl.
    + apply atomic_delete_organization in H. rewrite H. constructor.
    + apply delete_organization_returns in H as (org & Ho & _ & Hc & ->).
      by apply step_deleted.
Qed.

(** The record of a user after the cleanup of delete_organization. *)
Lemma lookup_cleaned_users org_id members (us : gmap string User.t) k :
  cleaned_users org_id members us !! k
  = (λ u, if bool_decide (k ∈ members ∧ org_id ∈ User.organizations u)
          then User.Build (filter (λ x, x ≠ org_id) (User.organizations u))
          else u) <$> us !! k.
Proof.
  unfold cleaned_users, modified.
  rewrite lookup_union, map_lookup_imap.
  destruct (us !! k) as [u|]; simpl; [|done].
  unfold Organizations.pull_organizations, pull.
  destruct (decide (k ∈ members)) as [Hk|Hk].
  - rewrite (bool_decide_eq_true_2 _ Hk).
    destruct (decide (org_id ∈ User.organizations u)) as [Ho|Ho].
    + rewrite (bool_decide_eq_true_2 _ Ho). simpl.
      by rewrite bool_decide_eq_true_2.
    + rewrite (bool_decide_eq_false_2 _ Ho). simpl.
      rewrite bool_decide_eq_false_2; [done|]. tauto.
  - rewrite (bool_decide_eq_false_2 _ Hk). simpl.
    rewrite bool_decide_eq_false_2; [done|]. tauto.
Qed.

(** The cleanup keeps every other organization in a record. *)
Lemma cleaned_users_other org_id members (us : gmap string User.t) k u j :
  us !! k = Some u → j ∈ User.organizations u → j ≠ org_id →
  ∃ u', cleaned_users org_id members us !! k = Some u'
        ∧ j ∈ User.organizations u'.
Proof.
  intros Hk Hj Hne. rewrite lookup_cleaned_users, Hk. simpl.
  eexists. split; [done|]. case_bool_decide; [|done]. simpl.
  apply list_elem_of_filter. done.
Qed.

(** Whatever a record lists after the cleanup, it listed before. *)
Lemma cleaned_users_listed org_id members (us : gmap string User.t) k u' j :
  cleaned_users org_id members us !! k = Some u' →
  j ∈ User.organizations u' →
  ∃ u, us !! k = Some u ∧ j ∈ User.organizations u
       ∧ (k ∈ members → j ≠ org_id).
Proof.
  rewrite lookup_cleaned_users. destruct (us !! k) as [u|]; [|done]. simpl.
  intros [= <-] Hj. exists u. split; [done|].
  case_bool_decide as Hc; simpl in Hj.
  - apply list_elem_of_filter in Hj as [Hne Hj]. done.
  - split; [done|]. intros Hk ->. tauto.
Qed.

(** ** Invariants of the store *)

Lemma members_listed_step s s' :
  store_step s s' → members_listed s → members_listed s'.
Proof.
  intros Hstep Inv.
  destruct Hstep as [|owner payload new_id u Hn Hu|cu org opp new_id o Hn Ho
                     |cu org o u Ho Hm Hp Hu|org o Ho Hc];
    [done|..]; intros k o' m Hk Hin; simpl in *.
  - destruct (decide (k = new_id)) as [->|Hne].
    + rewrite lookup_insert_eq in Hk. injection Hk as <-. simpl in Hin.
      apply list_elem_of_singleton in Hin as ->.
      rewrite lookup_insert_eq. eexists. split; [done|]. simpl. set_solver.
    + rewrite lookup_insert_ne in Hk by done.
      destruct (Inv k o' m Hk Hin) as (u0 & Hu0 & Hl).
      destruct (decide (m = owner)) as [->|Hmo].
      * rewrite lookup_insert_eq. eexists. split; [done|]. simpl.
        rewrite Hu in Hu0. injection Hu0 as <-. set_solver.
      * rewrite lookup_insert_ne by done. eauto.
  - destruct (decide (k = org)) as [->|Hne].
    + rewrite lookup_insert_eq in Hk. injection Hk as <-. simpl in Hin. eauto.
    + rewrite lookup_insert_ne in Hk by done. eauto.
  - destruct (decide (k = org)) as [->|Hne].
    + rewrite lookup_insert_eq in Hk. injection Hk as <-. simpl in Hin.
      apply elem_of_app in Hin as [Hin|Hin].
      * destruct (Inv org o m Ho Hin) as (u0 & Hu0 & Hl).
        assert (m ≠ cu) by (intros ->; done).
        rewrite lookup_insert_ne by done. eauto.
      * apply list_elem_of_singleton in Hin as ->.
        rewrite lookup_insert_eq. eexists. split; [done|]. simpl. set_solver.
    + rewrite lookup_insert_ne in Hk by done.
      destruct (Inv k o' m Hk Hin) as (u0 & Hu0 & Hl).
      destruct (decide (m = cu)) as [->|Hmc].
      * rewrite lookup_insert_eq. eexists. split; [done|]. simpl.
        rewrite Hu in Hu0. injection Hu0 as <-. set_solver.
      * rewrite lookup_insert_ne by done. eauto.
  - apply lookup_delete_Some in Hk as [Hne Hk].
    destruct (Inv k o' m Hk Hin) as (u0 & Hu0 & Hl).
    by apply (cleaned_users_other org (Org.members o) _ m u0 k).
Qed.

Lemma listed_are_members_step s s' :
  store_step s s' → listed_are_members s → listed_are_members s'.
Proof.
  intros Hstep Inv.
  destruct Hstep as [|owner payload new_id u Hn Hu|cu org opp new_id o Hn Ho
                     |cu org o u Ho Hm Hp Hu|org o Ho Hc];
    [done|..]; intros m u' k Hk Hin; simpl in *.
  - assert (∀ m0 u0 k0, Users_docs s !! m0 = Some u0 →
              k0 ∈ User.organizations u0 →
              ∃ o0, <[new_id := new_organization owner payload]>
                      (Organizations_docs s) !! k0 = Some o0
                    ∧ m0 ∈ Org.members o0) as Hold.
    { intros m0 u0 k0 H1 H2. destruct (Inv m0 u0 k0 H1 H2) as (o0 & Ho0 & Hmem).
      assert (k0 ≠ new_id) by congruence.
      rewrite lookup_insert_ne by done. eauto. }
    destruct (decide (m = owner)) as [->|Hmo].
    + rewrite lookup_insert_eq in Hk. injection Hk as <-. simpl in Hin.
      apply elem_of_app in Hin as [Hin|Hin]; [by eauto|].
      apply list_elem_of_singleton in Hin as ->.
      rewrite lookup_insert_eq. eexists. split; [done|]. simpl. set_solver.
    + rewrite lookup_insert_ne in Hk by done. eauto.
  - destruct (Inv m u' k Hk Hin) as (o0 & Ho0 & Hmem).
    destruct (decide (k = org)) as [->|Hne].
    + rewrite lookup_insert_eq. eexists. split; [done|]. simpl. congruence.
    + rewrite lookup_insert_ne by done. eauto.
  - assert (∀ m0 u0 k0, Users_docs s !! m0 = Some u0 →
              k0 ∈ User.organizations u0 →
              ∃ o0, <[org := with_members o (Org.members o ++ [cu])%list]>
                      (Organizations_docs s) !! k0 = Some o0
                    ∧ m0 ∈ Org.members o0) as Hold.
    { intros m0 u0 k0 H1 H2. destruct (Inv m0 u0 k0 H1 H2) as (o0 & Ho0 & Hmem).
      destruct (decide (k0 = org)) as [->|Hne].
      - rewrite lookup_insert_eq. eexists. split; [done|]. simpl.
        rewrite Ho in Ho0. injection Ho0 as <-. set_solver.
      - rewrite lookup_insert_ne by done. eauto. }
    destruct (decide (m = cu)) as [->|Hmc].
    + rewrite lookup_insert_eq in Hk. injection Hk as <-. simpl in Hin.
      apply elem_of_app in Hin as [Hin|Hin]; [by eauto|].
      apply list_elem_of_singleton in Hin as ->.
      rewrite lookup_insert_eq. eexists. split; [done|]. simpl. set_solver.
    + rewrite lookup_insert_ne in Hk by done. eauto.
  - destruct (cleaned_users_listed _ _ _ _ _ _ Hk Hin) as (u0 & Hu0 & Hl & Hpull).
    destruct (Inv m u0 k Hu0 Hl) as (o0 & Ho0 & Hmem).
    assert (k ≠ org) as Hne.
    { intros ->. rewrite Ho in Ho0. injection Ho0 as <-. by apply Hpull. }
    rewrite lookup_delete_ne by done. eauto.
Qed.

Lemma members_nodup_step s s' :
  store_step s s' → members_nodup s → members_nodup s'.
Proof.
  intros Hstep Inv.
  destruct Hstep as [|owner payload new_id u Hn Hu|cu org opp new_id o Hn Ho
                     |cu org o u Ho Hm Hp Hu|org o Ho Hc];
    [done|..]; intros k o' Hk; simpl in *.
  - destruct (decide (k = new_id)) as [->|Hne].
    + rewrite lookup_insert_eq in Hk. injection Hk as <-. simpl.
      apply NoDup_singleton.
    + rewrite lookup_insert_ne in Hk by done. eauto.
  - destruct (decide (k = org)) as [->|Hne].
    + rewrite lookup_insert_eq in Hk. injection Hk as <-. simpl. eauto.
    + rewrite lookup_insert_ne in Hk by done. eauto.
  - destruct (decide (k = org)) as [->|Hne].
    + rewrite lookup_insert_eq in Hk. injection Hk as <-. simpl.
      apply NoDup_app. split; [by eauto|]. split; [|apply NoDup_singleton].
      intros x Hx Hx'. apply list_elem_of_singleton in Hx' as ->. done.
    + rewrite lookup_insert_ne in Hk by done. eauto.
  - apply lookup_delete_Some in Hk as [_ Hk]. eauto.
Qed.

Lemma creator_is_sole_admin_step s s' :
  store_step s s' → creator_is_sole_admin s → creator_is_sole_admin s'.
Proof.
  intros Hstep Inv.
  destruct Hstep as [|owner payload new_id u Hn Hu|cu org opp new_id o Hn Ho
                     |cu org o u Ho Hm Hp Hu|org o Ho Hc];
    [done|..]; intros k o' Hk; simpl in *.
  - destruct (decide (k = new_id)) as [->|Hne].
    + rewrite lookup_insert_eq in Hk. injection Hk as <-. simpl.
      split; [done|set_solver].
    + rewrite lookup_insert_ne in Hk by done. eauto.
  - destruct (decide (k = org)) as [->|Hne].
    + rewrite lookup_insert_eq in Hk. injection Hk as <-. simpl. eauto.
    + rewrite lookup_insert_ne in Hk by done. eauto.
  - destruct (decide (k = org)) as [->|Hne].
    + rewrite lookup_insert_eq in Hk. injection Hk as <-. simpl.
      destruct (Inv org o Ho) as [Ha Hc]. split; [done|set_solver].
    + rewrite lookup_insert_ne in Hk by done. eauto.
  - apply lookup_delete_Some in Hk as [_ Hk]. eauto.
Qed.

Lemma opportunities_stored_step s s' :
  store_step s s' → opportunities_stored s → opportunities_stored s'.
Proof.
  intros Hstep Inv.
  destruct Hstep as [|owner payload new_id u Hn Hu|cu org opp new_id o Hn Ho
                     |cu org o u Ho Hm Hp Hu|org o Ho Hc];
    [done|..]; intros k o' p Hk Hin; simpl in *.
  - destruct (decide (k = new_id)) as [->|Hne].
    + rewrite lookup_insert_eq in Hk. injection Hk as <-. simpl in Hin.
      by apply elem_of_nil in Hin.
    + rewrite lookup_insert_ne in Hk by done. eauto.
  - assert (∀ k0 o0 p0, Organizations_docs s !! k0 = Some o0 →
              p0 ∈ Org.opportunities o0 →
              ∃ opp0, <[new_id := Opp.Build org cu opp]> (Opportunities_docs s)
                        !! p0 = Some opp0
                      ∧ Opp.organization_id opp0 = k0) as Hold.
    { intros k0 o0 p0 H1 H2. destruct (Inv k0 o0 p0 H1 H2) as (opp0 & H3 & H4).
      assert (p0 ≠ new_id) by congruence.
      rewrite lookup_insert_ne by done. eauto. }
    destruct (decide (k = org)) as [->|Hne].
    + rewrite lookup_insert_eq in Hk. injection Hk as <-. simpl in Hin.
      apply elem_of_app in Hin as [Hin|Hin]; [by eauto|].
      apply list_elem_of_singleton in Hin as ->.
      rewrite lookup_insert_eq. eauto.
    + rewrite lookup_insert_ne in Hk by done. eauto.
  - destruct (decide (k = org)) as [->|Hne].
    + rewrite lookup_insert_eq in Hk. injection Hk as <-. simpl in Hin. eauto.
    + rewrite lookup_insert_ne in Hk by done. eauto.
  - apply lookup_delete_Some in Hk as [_ Hk]. eauto.
Qed.

Lemma no_organizations_consistent s : no_organizations s → consistent s.
Proof.
  intros [Ho Hu]. unfold consistent. split; [|split; [|split; [|split]]].
  - intros k o m Hk. by rewrite Ho, lookup_empty in Hk.
  - intros m u k Hm Hk. rewrite (Hu m u Hm) in Hk. by apply elem_of_nil in Hk.
  - intros k o Hk. by rewrite Ho, lookup_empty in Hk.
  - intros k o Hk. by rewrite Ho, lookup_empty in Hk.
  - intros k o p Hk. by rewrite Ho, lookup_empty in Hk.
Qed.

Lemma no_organizations_world_users : no_organizations (db world_users).
Proof. split; [reflexivity|compute_done]. Qed.

(** An invariant of one step is an invariant of every sequence of calls. *)
Lemma after_all_invariant (Inv : Store → Prop) validate :
  (∀ s s', store_step s s' → Inv s → Inv s') →
  ∀ cs w, Inv (db w) → Inv (db (after_all validate cs w)).
Proof.
  intros Hstep cs. induction cs as [|c cs IH]; intros w Hw; [done|].
  simpl. apply IH. eapply Hstep; [apply after_store_step|done].
Qed.

(** X1.  If every member of every organization has a user record that lists
    the organization, this is still so after any sequence of calls of the
    five operations, whatever each returned or raised. *)
Theorem members_listed_kept (validate : list string → result bool)
    (cs : list call) (w : World) :
  members_listed (db w) → members_listed (db (after_all validate cs w)).
Proof. apply after_all_invariant, members_listed_step. Qed.

Lemma members_listed_kept_witness :
  members_listed (db (after_all accepting story world_users)).
Proof.
  apply (members_listed_kept accepting story world_users).
  apply no_organizations_consistent, no_organizations_world_users.
Defined.

(** X2.  If user records list only organizations that exist and have the
    user among their members, this is still so after any sequence of calls. *)
Theorem listed_are_members_kept (validate : list string → result bool)
    (cs : list call) (w : World) :
  listed_are_members (db w) → listed_are_members (db (after_all validate cs w)).
Proof. apply after_all_invariant, listed_are_members_step. Qed.

Lemma listed_are_members_kept_witness :
  listed_are_members (db (after_all accepting story world_users)).
Proof.
  apply (listed_are_members_kept accepting story world_users).
  apply no_organizations_consistent, no_organizations_world_users.
Defined.

(** X3.  If no organization has a user twice among its members, none has
    after any sequence of calls: add_member never adds a member twice. *)
Theorem members_nodup_kept (validate : list string → result bool)
    (cs : list call) (w : World) :
  members_nodup (db w) → members_nodup (db (after_all validate cs w)).
Proof. apply after_all_invariant, members_nodup_step. Qed.

Lemma members_nodup_kept_witness :
  members_nodup (db (after_all accepting (story ++ [AddMember "U2" "O1"])
                       world_users)).
Proof.
  apply (members_nodup_kept accepting (story ++ [AddMember "U2" "O1"]) world_users).
  apply no_organizations_consistent, no_organizations_world_users.
Defined.

(** X4.  If in every organization the creator is the one admin and is a
    member, this is still so after any sequence of calls: no operation
    changes admins or created_by, and none removes a member. *)
Theorem creator_is_sole_admin_kept (validate : list string → result bool)
    (cs : list call) (w : World) :
  creator_is_sole_admin (db w) →
  creator_is_sole_admin (db (after_all validate cs w)).
Proof. apply after_all_invariant, creator_is_sole_admin_step. Qed.

Lemma creator_is_sole_admin_kept_witness :
  creator_is_sole_admin (db (after_all accepting story world_users)).
Proof.
  apply (creator_is_sole_admin_kept accepting story world_users).
  apply no_organizations_consistent, no_organizations_world_users.
Defined.

(** X5.  If every opportunity id of every organization is a stored
    opportunity whose organization_id is that organization, this is still
    so after any sequence of calls. *)
Theorem opportunities_stored_kept (validate : list string → result bool)
    (cs : list call) (w : World) :
  opportunities_stored (db w) →
  opportunities_stored (db (after_all validate cs w)).
Proof. apply after_all_invariant, opportunities_stored_step. Qed.

Lemma opportunities_stored_kept_witness :
  opportunities_stored (db (after_all accepting story world_users)).
Proof.
  apply (opportunities_stored_kept accepting story world_users).
  apply no_organizations_consistent, no_organizations_world_users.
Defined.

(** X6.  From a store without organizations, in which no user record lists
    one, every sequence of calls leads to a store where all five hold:
    members and user records agree both ways, no member is double, the
    creator is the one admin and a member, and the opportunity ids of an
    organization are its stored opportunities. *)
Theorem consistent_from_no_organizations (validate : list string → result bool)
    (cs : list call) (w : World) :
  no_organizations (db w) → consistent (db (after_all validate cs w)).
Proof.
  intros Hw. apply after_all_invariant; [|by apply no_organizations_consistent].
  intros s s' Hstep (H1 & H2 & H3 & H4 & H5). unfold consistent.
  eauto 10 using members_listed_step, listed_are_members_step,
    members_nodup_step, creator_is_sole_admin_step, opportunities_stored_step.
Qed.

Lemma consistent_from_no_organizations_witness :
  consistent (db (after_all accepting (story ++ [DeleteOrganization "U1" "O1"])
                    world_users))
  ∧ Organizations_docs
      (db (after_all accepting (story ++ [DeleteOrganization "U1" "O1"])
             world_users)) !! "O1" = None
  ∧ Org.members <$> Organizations_docs
      (db (after_all accepting story world_users)) !! "O1" = Some ["U1"; "U2"].
Proof.
  split; [|split; reflexivity].
  apply (consistent_from_no_organizations accepting
           (story ++ [DeleteOrganization "U1" "O1"]) world_users).
  split; [reflexivity|compute_done].
Defined.

(** ** The operations while the connection is up *)

Section Up.
Import Organizations.
Variable validate : list string → result bool.

Lemma is_authorized_user_up org_id user_id w b :
  validate [org_id; user_id] = inr b →
  outage w = None →
  is_authorized_user validate org_id user_id w
  = match Organizations_docs (db w) !! org_id with
    | Some o =>
        if bool_decide (user_id ∈ Org.admins o) then (inr tt, w)
        else (inl (HTTPException HTTP_401_UNAUTHORIZED
                     "Error: Unauthorized user."), w)
    | None =>
        (inl (HTTPException HTTP_401_UNAUTHORIZED "Error: Unauthorized user."), w)
    end.
Proof.
  intros Hv Hup. unfold is_authorized_user. rewrite run_validated, Hv.
  unfold try_finally, try_except, is_authorized_user_query.
  rewrite run_bind, find_one_up by done. simpl.
  destruct (Organizations_docs (db w) !! org_id) as [o|]; simpl; [|done].
  by destruct (bool_decide _).
Qed.

Lemma delete_organization_up current_user org_id w b :
  validate [org_id; current_user] = inr b →
  outage w = None →
  delete_organization validate current_user org_id w
  = match Organizations_docs (db w) !! org_id with
    | None =>
        (inl (HTTPException HTTP_401_UNAUTHORIZED
                "Error: Organization not found."), session_left w)
    | Some o =>
        if negb (String.eqb current_user (Org.created_by o))
        then (inl (HTTPException HTTP_401_UNAUTHORIZED
                     "Error: Unauthorized user."), session_left w)
        else if Nat.eqb (cleanup_count org_id (Org.members o) (Users_docs (db w))) 0
        then (inl (HTTPException HTTP_400_BAD_REQUEST
                     "Error: Unable to update user."), session_left w)
        else
          (inr (OK (Detail "Success: Organization deleted Successfully.")),
           set_db
             {| Organizations_docs := delete org_id (Organizations_docs (db w));
                Users_docs :=
                  cleaned_users org_id (Org.members o) (Users_docs (db w));
                Opportunities_docs := Opportunities_docs (db w) |}
             (session_left w))
    end.
Proof.
  intros Hv Hup. unfold delete_organization. rewrite run_validated, Hv.
  unfold try_except. rewrite run_bind, start_session_up by done.
  unfold start_transaction, delete_organization_transaction.
  rewrite run_bind, find_one_up by done. simpl.
  destruct (Organizations_docs (db w) !! org_id) as [o|] eqn:Ho; simpl;
    [|by destruct w].
  destruct (String.eqb current_user (Org.created_by o)); simpl; [|by destruct w].
  rewrite run_bind, delete_one_up by done. simpl. rewrite Ho.
  rewrite run_bind. simpl.
  rewrite run_bind, update_many_up by done. simpl.
  unfold cleanup_count.
  destruct (Nat.eqb _ 0); simpl; [by destruct w|].
  rewrite roundtrip_up by done. by destruct w.
Qed.

Lemma create_opportunity_up current_user org_id opportunity new_id w b :
  validate [current_user; org_id] = inr b →
  outage w = None →
  create_opportunity validate current_user org_id opportunity new_id w
  = let opp := Opp.Build org_id current_user opportunity in
    match Opportunities_docs (db w) !! new_id with
    | Some _ =>
        (inl (AttributeError "'str' object has no attribute 'get'"), w)
    | None =>
        match Organizations_docs (db w) !! org_id with
        | None =>
            (inl (HTTPException HTTP_400_BAD_REQUEST
                    "Error: Unable to update organization"), w)
        | Some o =>
            (inr (Created (OpportunityBody new_id opp)),
             set_background_tasks
               (background_tasks w ++ [(org_id, (new_id, opp))])%list
               (set_db
                  {| Organizations_docs :=
                       <[org_id := with_opportunities o
                                     (Org.opportunities o ++ [new_id])%list]>
                         (Organizations_docs (db w));
                     Users_docs := Users_docs (db w);
                     Opportunities_docs :=
                       <[new_id := opp]> (Opportunities_docs (db w)) |} w))
        end
    end.
Proof.
  intros Hv Hup. unfold create_opportunity. rewrite run_validated, Hv.
  unfold try_assign, try_finally, try_except, start_transaction,
    create_opportunity_transaction.
  rewrite start_session_up by done.
  rewrite run_bind, insert_one_up by done. simpl.
  destruct (Opportunities_docs (db w) !! new_id) as [p|] eqn:Hn; simpl;
    [by destruct w|].
  rewrite run_bind, update_one_up by done. simpl.
  destruct (Organizations_docs (db w) !! org_id) as [o|] eqn:Ho; simpl;
    [|by destruct w].
  rewrite roundtrip_up by done. by destruct w.
Qed.

End Up.

Lemma listed_are_members_all validate cs w :
  no_organizations (db w) → listed_are_members (db (after_all validate cs w)).
Proof.
  intros Hw. apply after_all_invariant; [apply listed_are_members_step|].
  by apply no_organizations_consistent.
Qed.

Lemma members_listed_all validate cs w :
  no_organizations (db w) → members_listed (db (after_all validate cs w)).
Proof.
  intros Hw. apply after_all_invariant; [apply members_listed_step|].
  by apply no_organizations_consistent.
Qed.

Lemma creator_is_sole_admin_all validate cs w :
  no_organizations (db w) → creator_is_sole_admin (db (after_all validate cs w)).
Proof.
  intros Hw. apply after_all_invariant; [apply creator_is_sole_admin_step|].
  by apply no_organizations_consistent.
Qed.

(** ** Deleting an organization *)

(** X7.  In a store where user records list only organizations they are
    members of, a delete_organization that returns leaves no trace of the
    organization: it is gone and no user record lists it. *)
Theorem delete_organization_unlists
    (validate : list string → result bool) (current_user org_id : string)
    (w : World) (resp : Organizations.Response) :
  listed_are_members (db w) →
  fst (Organizations.delete_organization validate current_user org_id w)
  = inr resp →
  let w' := snd (Organizations.delete_organization validate current_user
                   org_id w) in
  Organizations_docs (db w') !! org_id = None
  ∧ ∀ m u, Users_docs (db w') !! m = Some u → org_id ∉ User.organizations u.
Proof.
  intros Inv Hr.
  destruct (Organizations.delete_organization validate current_user org_id w)
    as [r w'] eqn:Hrun. simpl in *. subst r.
  apply delete_organization_returns in Hrun as (o & Ho & _ & _ & ->). simpl.
  split; [apply lookup_delete_eq|]. intros m u Hm Hin.
  destruct (cleaned_users_listed _ _ _ _ _ _ Hm Hin) as (u0 & Hu0 & Hl & Hpull).
  destruct (Inv m u0 org_id Hu0 Hl) as (o' & Ho' & Hmem).
  rewrite Ho in Ho'. injection Ho' as <-. by apply Hpull.
Qed.

Lemma delete_organization_unlists_witness :
  let w' := snd (Organizations.delete_organization accepting "U1" "O1"
                   (after_all accepting story world_users)) in
  Organizations_docs (db w') !! "O1" = None
  ∧ Users_docs (db w') !! "U2" = Some (User.Build []).
Proof.
  destruct (delete_organization_unlists accepting "U1" "O1"
              (after_all accepting story world_users)
              (Organizations.OK (Organizations.Detail
                 "Success: Organization deleted Successfully.")))
    as [Hgone _]; [|reflexivity|split; [exact Hgone|reflexivity]].
  apply listed_are_members_all, no_organizations_world_users.
Defined.

(** X8.  delete_organization never touches the Opportunities collection:
    when it returns, every opportunity of the deleted organization is still
    stored and its organization_id names an organization that is gone. *)
Theorem delete_organization_keeps_opportunities
    (validate : list string → result bool) (current_user org_id : string)
    (w : World) :
  let r := Organizations.delete_organization validate current_user org_id w in
  Opportunities_docs (db (snd r)) = Opportunities_docs (db w)
  ∧ ∀ resp p opp,
      fst r = inr resp →
      Opportunities_docs (db w) !! p = Some opp →
      Opp.organization_id opp = org_id →
      Opportunities_docs (db (snd r)) !! p = Some opp
      ∧ Organizations_docs (db (snd r)) !! Opp.organization_id opp = None.
Proof.
  intros r.
  destruct (Organizations.delete_organization validate current_user org_id w)
    as [[e|resp] w'] eqn:Hrun; subst r; simpl.
  - apply atomic_delete_organization in Hrun. rewrite Hrun. split; [done|].
    intros ? ? ? [=].
  - apply delete_organization_returns in Hrun as (o & Ho & _ & _ & ->). simpl.
    split; [done|]. intros _ p opp _ Hp ->. split; [done|].
    apply lookup_delete_eq.
Qed.

Lemma delete_organization_keeps_opportunities_witness :
  let w' := snd (Organizations.delete_organization accepting "U1" "O1"
                   (after_all accepting story world_users)) in
  Opportunities_docs (db w') !! "P1" = Some (Opp.Build "O1" "U1" "internship")
  ∧ Organizations_docs (db w') !! "O1" = None.
Proof.
  destruct (delete_organization_keeps_opportunities accepting "U1" "O1"
              (after_all accepting story world_users)) as [_ H].
  exact (H _ "P1" (Opp.Build "O1" "U1" "internship") eq_refl eq_refl eq_refl).
Defined.

(** X9.  With well-formed ids and the connection up, the creator's
    delete_organization returns whenever the creator is a member with a
    user record that lists the organization, whatever the records of the
    other members: the organization is then gone. *)
Theorem delete_organization_by_creator_returns
    (validate : list string → result bool) (current_user org_id : string)
    (w : World) (b : bool) (o : Org.t) (u : User.t) :
  validate [org_id; current_user] = inr b →
  outage w = None →
  Organizations_docs (db w) !! org_id = Some o →
  current_user = Org.created_by o →
  Org.created_by o ∈ Org.members o →
  Users_docs (db w) !! Org.created_by o = Some u →
  org_id ∈ User.organizations u →
  let r := Organizations.delete_organization validate current_user org_id w in
  fst r = inr (Organizations.OK
                 (Organizations.Detail "Success: Organization deleted Successfully."))
  ∧ Organizations_docs (db (snd r)) !! org_id = None.
Proof.
  intros Hv Hup Ho -> Hmem Hu Hl r. subst r.
  rewrite (delete_organization_up validate _ _ w b Hv Hup), Ho.
  rewrite String.eqb_refl. simpl.
  destruct (Nat.eqb _ 0) eqn:Hc.
  - exfalso. apply Nat.eqb_eq, cleanup_count_zero in Hc.
    by apply (Hc _ u Hmem Hu).
  - simpl. split; [done|]. apply lookup_delete_eq.
Qed.

(** Acme with the member U9, who has no user record. *)
Lemma delete_organization_by_creator_witness :
  let w := set_db
             {| Organizations_docs :=
                  {[ "O1" := with_members acme ["U1"; "U9"] ]};
                Users_docs := {[ "U1" := User.Build ["O1"] ]};
                Opportunities_docs := ∅ |} world_acme in
  ¬ members_listed (db w)
  ∧ fst (Organizations.delete_organization accepting "U1" "O1" w)
    = inr (Organizations.OK
             (Organizations.Detail "Success: Organization deleted Successfully.")).
Proof.
  intros w. split.
  - intros Inv.
    destruct (Inv "O1" (with_members acme ["U1"; "U9"]) "U9") as (u & Hu & _);
      [reflexivity|compute_done|].
    vm_compute in Hu. discriminate Hu.
  - refine (proj1 (delete_organization_by_creator_returns accepting "U1" "O1"
              w false (with_members acme ["U1"; "U9"]) (User.Build ["O1"])
              eq_refl eq_refl _ eq_refl _ _ _)).
    + vm_compute. reflexivity.
    + compute_done.
    + vm_compute. reflexivity.
    + compute_done.
Defined.

(** ** An organization that is not there *)

(** X10.  With well-formed ids and the connection up, the operations answer
    an absent organization in four ways: add_member with 404 "Organization
    not found", delete_organization with 401 "Organization not found",
    is_authorized_user with 401 "Unauthorized user", and create_opportunity
    with 400 "Unable to update organization", its inserted opportunity
    discarded and no task added. *)
Theorem absent_organization_answers
    (validate : list string → result bool)
    (current_user org_id opportunity new_id : string) (w : World) :
  takes validate [org_id; current_user] →
  takes validate [current_user; org_id] →
  outage w = None →
  Organizations_docs (db w) !! org_id = None →
  Opportunities_docs (db w) !! new_id = None →
  fst (Organizations.add_member validate current_user org_id w)
  = inl (HTTPException HTTP_404_NOT_FOUND "Error: Organization not found.")
  ∧ fst (Organizations.delete_organization validate current_user org_id w)
    = inl (HTTPException HTTP_401_UNAUTHORIZED "Error: Organization not found.")
  ∧ fst (Organizations.is_authorized_user validate org_id current_user w)
    = inl (HTTPException HTTP_401_UNAUTHORIZED "Error: Unauthorized user.")
  ∧ Organizations.create_opportunity validate current_user org_id opportunity
      new_id w
    = (inl (HTTPException HTTP_400_BAD_REQUEST
              "Error: Unable to update organization"), w).
Proof.
  intros [b1 Hv1] [b2 Hv2] Hup Ho Hn.
  rewrite (add_member_up validate _ _ w b1 Hv1 Hup), Ho.
  rewrite (delete_organization_up validate _ _ w b1 Hv1 Hup), Ho.
  rewrite (is_authorized_user_up validate _ _ w b1 Hv1 Hup), Ho.
  rewrite (create_opportunity_up validate _ _ _ _ w b2 Hv2 Hup). simpl.
  by rewrite Hn, Ho.
Qed.

Lemma absent_organization_answers_witness :
  fst (Organizations.add_member accepting "U2" "O9" world_users)
  = inl (HTTPException HTTP_404_NOT_FOUND "Error: Organization not found.")
  ∧ Organizations.create_opportunity accepting "U2" "O9" "internship" "P1"
      world_users
    = (inl (HTTPException HTTP_400_BAD_REQUEST
              "Error: Unable to update organization"), world_users).
Proof.
  destruct (absent_organization_answers accepting "U2" "O9" "internship" "P1"
              world_users) as (H1 & _ & _ & H4);
    [by exists false|by exists false|reflexivity|reflexivity|reflexivity|].
  split; [exact H1|exact H4].
Defined.

(** ** Who is an admin *)

(** X11.  In a store where the creator is the one admin of every
    organization, as in every store the operations build, is_authorized_user
    returns exactly for the creator of an existing organization (well-formed
    ids, connection up): joining an organization gives no admin rights. *)
Theorem is_authorized_user_iff_creator
    (validate : list string → result bool) (org_id user_id : string)
    (w : World) (b : bool) :
  validate [org_id; user_id] = inr b →
  outage w = None →
  creator_is_sole_admin (db w) →
  fst (Organizations.is_authorized_user validate org_id user_id w) = inr tt
  ↔ ∃ o, Organizations_docs (db w) !! org_id = Some o
         ∧ user_id = Org.created_by o.
Proof.
  intros Hv Hup Inv.
  rewrite (is_authorized_user_up validate _ _ w b Hv Hup).
  destruct (Organizations_docs (db w) !! org_id) as [o|] eqn:Ho.
  - destruct (Inv org_id o Ho) as [Ha _].
    case_bool_decide as Hin; rewrite Ha in Hin; simpl.
    + apply list_elem_of_singleton in Hin. split; [by eauto|done].
    + split; [done|]. intros (o' & [= <-] & ->). exfalso. apply Hin.
      by apply list_elem_of_singleton.
  - simpl. split; [done|]. intros (o' & [=] & _).
Qed.

Lemma is_authorized_user_iff_creator_witness :
  let w := after_all accepting story world_users in
  fst (Organizations.is_authorized_user accepting "O1" "U1" w) = inr tt
  ∧ fst (Organizations.is_authorized_user accepting "O1" "U2" w) ≠ inr tt.
Proof.
  pose proof (creator_is_sole_admin_all accepting story world_users
                no_organizations_world_users) as Inv.
  split.
  - apply (is_authorized_user_iff_creator accepting "O1" "U1"
             (after_all accepting story world_users) false eq_refl eq_refl Inv).
    eexists. split; reflexivity.
  - intros H.
    apply (is_authorized_user_iff_creator accepting "O1" "U2"
             (after_all accepting story world_users) false eq_refl eq_refl Inv)
      in H as (o & Ho & Hc).
    vm_compute in Ho. injection Ho as <-. discriminate Hc.
Defined.

(** ** Creating an opportunity *)

(** X12.  Whenever create_opportunity returns, the opportunity is stored
    under the new id with the organization and the caller as its
    organization_id and created_by, the new id is appended to the
    opportunities of the organization, and exactly one task, for this
    organization and opportunity, is added to background_tasks.  It does
    return for any caller when the ids are well-formed, the connection is
    up, the id is new and the organization exists: the operation itself
    does not ask who the caller is. *)
Theorem create_opportunity_links_and_schedules
    (validate : list string → result bool)
    (current_user org_id opportunity new_id : string) (w : World) :
  let r := Organizations.create_opportunity validate current_user org_id
             opportunity new_id w in
  let opp := Opp.Build org_id current_user opportunity in
  (∀ resp, fst r = inr resp →
     ∃ o, Organizations_docs (db w) !! org_id = Some o
          ∧ Opportunities_docs (db (snd r)) !! new_id = Some opp
          ∧ Org.opportunities <$> Organizations_docs (db (snd r)) !! org_id
            = Some (Org.opportunities o ++ [new_id])%list
          ∧ background_tasks (snd r)
            = (background_tasks w ++ [(org_id, (new_id, opp))])%list)
  ∧ (∀ b o, validate [current_user; org_id] = inr b →
            outage w = None →
            Opportunities_docs (db w) !! new_id = None →
            Organizations_docs (db w) !! org_id = Some o →
            ∃ resp, fst r = inr resp).
Proof.
  intros r opp. split.
  - intros resp Hr. subst r.
    destruct (Organizations.create_opportunity _ _ _ _ _ w) as [r1 w'] eqn:Hrun.
    simpl in *. subst r1.
    apply create_opportunity_returns in Hrun as (o & _ & Ho & -> & -> & _).
    exists o. simpl. by rewrite !lookup_insert_eq.
  - intros b o Hv Hup Hn Ho. subst r.
    rewrite (create_opportunity_up validate _ _ _ _ w b Hv Hup). simpl.
    rewrite Hn, Ho. simpl. eauto.
Qed.

Lemma create_opportunity_links_and_schedules_witness :
  let w := after_all accepting [CreateOrganization "U1" beta "O1"] world_users in
  let r := Organizations.create_opportunity accepting "U3" "O1" "internship"
             "P1" w in
  Org.opportunities <$> Organizations_docs (db (snd r)) !! "O1" = Some ["P1"]
  ∧ background_tasks (snd r)
    = [("O1", ("P1", Opp.Build "O1" "U3" "internship"))].
Proof.
  intros w r.
  destruct (create_opportunity_links_and_schedules accepting "U3" "O1"
              "internship" "P1" w) as [Hany _].
  destruct (Hany _ eq_refl) as (o & Ho & _ & H2 & H3).
  vm_compute in Ho. injection Ho as <-. split; [exact H2|exact H3].
Defined.

(** X13.  With well-formed ids and the connection up, a create_opportunity
    that fails has written nothing and added no task: the world is as
    before. *)
Theorem create_opportunity_failure_leaves_world
    (validate : list string → result bool)
    (current_user org_id opportunity new_id : string) (w : World) (b : bool)
    (e : exn) :
  validate [current_user; org_id] = inr b →
  outage w = None →
  fst (Organizations.create_opportunity validate current_user org_id
         opportunity new_id w) = inl e →
  snd (Organizations.create_opportunity validate current_user org_id
         opportunity new_id w) = w.
Proof.
  intros Hv Hup. rewrite (create_opportunity_up validate _ _ _ _ w b Hv Hup).
  simpl. destruct (Opportunities_docs (db w) !! new_id); [done|].
  by destruct (Organizations_docs (db w) !! org_id).
Qed.

Lemma create_opportunity_failure_witness :
  snd (Organizations.create_opportunity accepting "U1" "O9" "internship" "P1"
         world_users) = world_users.
Proof.
  exact (create_opportunity_failure_leaves_world accepting "U1" "O9"
           "internship" "P1" world_users false _ eq_refl eq_refl eq_refl).
Defined.

(** X14.  When the id of the new opportunity is already taken, the insert
    raises DuplicateKeyError, for which create_opportunity has no clause of
    its own: the clause [except Exception] reads [e.args[0].get], the
    driver's message has no [get], and the caller receives AttributeError
    instead of an HTTPException (well-formed ids, connection up).  Nothing
    is written. *)
Theorem create_opportunity_taken_id
    (validate : list string → result bool)
    (current_user org_id opportunity new_id : string) (w : World) (b : bool)
    (taken : Opp.t) :
  validate [current_user; org_id] = inr b →
  outage w = None →
  Opportunities_docs (db w) !! new_id = Some taken →
  Organizations.create_opportunity validate current_user org_id opportunity
    new_id w
  = (inl (AttributeError "'str' object has no attribute 'get'"), w).
Proof.
  intros Hv Hup Hn. rewrite (create_opportunity_up validate _ _ _ _ w b Hv Hup).
  simpl. by rewrite Hn.
Qed.

Lemma create_opportunity_taken_id_witness :
  let w := after_all accepting story world_users in
  Organizations.create_opportunity accepting "U1" "O1" "traineeship" "P1" w
  = (inl (AttributeError "'str' object has no attribute 'get'"), w).
Proof.
  exact (create_opportunity_taken_id accepting "U1" "O1" "traineeship" "P1"
           (after_all accepting story world_users) false
           (Opp.Build "O1" "U1" "internship") eq_refl eq_refl eq_refl).
Defined.

(** X15.  add_task runs inside the transaction block, before the commit:
    when the connection is lost at the commit (the insert and the update
    went through), create_opportunity raises the 500 failure, yet the task
    for the opportunity has been added to background_tasks. *)
Theorem create_opportunity_commit_lost
    (validate : list string → result bool)
    (current_user org_id opportunity new_id : string) (w : World) (b : bool)
    (o : Org.t) :
  validate [current_user; org_id] = inr b →
  outage w = Some 2%nat →
  Opportunities_docs (db w) !! new_id = None →
  Organizations_docs (db w) !! org_id = Some o →
  let r := Organizations.create_opportunity validate current_user org_id
             opportunity new_id w in
  fst r = inl (HTTPException HTTP_500_INTERNAL_SERVER_ERROR
                 "Error: Database connection error.")
  ∧ background_tasks (snd r)
    = (background_tasks w
       ++ [(org_id, (new_id, Opp.Build org_id current_user opportunity))])%list.
Proof.
  intros Hv Hup Hn Ho r. subst r.
  unfold Organizations.create_opportunity. rewrite run_validated, Hv.
  destruct w as [s n out t]. simpl in *. subst out.
  unfold try_assign, try_finally, try_except, start_transaction,
    Organizations.create_opportunity_transaction, start_session, insert_one,
    update_one, roundtrip.
  repeat (first [rewrite Hn | rewrite Ho | rewrite run_bind | progress simpl]).
  done.
Qed.

Lemma create_opportunity_commit_lost_witness :
  let w := set_outage (Some 2%nat)
             (after_all accepting [CreateOrganization "U1" beta "O1"] world_users) in
  let r := Organizations.create_opportunity accepting "U1" "O1" "internship"
             "P1" w in
  fst r = inl (HTTPException HTTP_500_INTERNAL_SERVER_ERROR
                 "Error: Database connection error.")
  ∧ background_tasks (snd r)
    = [("O1", ("P1", Opp.Build "O1" "U1" "internship"))].
Proof.
  intros w r.
  exact (create_opportunity_commit_lost accepting "U1" "O1" "internship"
           "P1" w false (new_organization "U1" beta)
           eq_refl eq_refl eq_refl eq_refl).
Defined.

(** ** The exceptions that leave the operations *)

Section Raises.
Context {A B : Type}.

Lemma raises_weaken (P Q : exn → Prop) (c : M A) :
  (∀ e, P e → Q e) → raises P c → raises Q c.
Proof. intros HPQ Hc w e w' H. eauto. Qed.

Lemma raises_ret P (a : A) : raises P (mret a).
Proof. intros w e w' [=]. Qed.

Lemma raises_raise (P : exn → Prop) e : P e → raises P (@raise A e).
Proof. by intros He w e' w' [= <- _]. Qed.

Lemma raises_bind P (c : M A) (k : A → M B) :
  raises P c → (∀ a, raises P (k a)) → raises P (c ≫= k).
Proof.
  intros Hc Hk w e w'. rewrite run_bind.
  destruct (c w) as [[e1|a] w1] eqn:H1.
  - intros [= <- <-]. eauto.
  - intros H2. by eapply Hk.
Qed.

Lemma raises_if P (b : bool) (c1 c2 : M A) :
  raises P c1 → raises P c2 → raises P (if b then c1 else c2).
Proof. by destruct b. Qed.

End Raises.

Lemma raises_get P : raises P get.
Proof. intros w e w' [=]. Qed.

Lemma raises_modify P f : raises P (modify f).
Proof. intros w e w' [=]. Qed.

Lemma raises_roundtrip : raises block_error roundtrip.
Proof.
  intros w e w'. unfold roundtrip.
  destruct (outage w) as [[|n]|]; intros [=]. subst. by intros c d.
Qed.

Lemma raises_raise_status {A} c d :
  c ∈ [HTTP_400_BAD_REQUEST; HTTP_401_UNAUTHORIZED; HTTP_404_NOT_FOUND] →
  raises block_error (@Organizations.raise_status A c d).
Proof. intros Hc. apply raises_raise. intros c0 d0 [= <- <-]. eauto. Qed.

Create HintDb raises.
#[local] Hint Resolve raises_ret raises_get raises_modify raises_roundtrip
  raises_if : raises.
#[local] Hint Extern 1 (raises _ (_ ≫= _)) =>
  apply raises_bind; [|intros ?] : raises.
#[local] Hint Extern 1 (raises block_error (Organizations.raise_status _ _)) =>
  apply raises_raise_status; compute_done : raises.

Lemma raises_find_one {D} (c : Collection D) k cond :
  raises block_error (find_one c k cond).
Proof. unfold find_one. auto with raises. Qed.

Lemma raises_update_one {D} (c : Collection D) k op :
  raises block_error (update_one c k op).
Proof.
  unfold update_one. do 2 (apply raises_bind; [auto with raises|intros ?]).
  destruct (_ ≫= op); auto with raises.
Qed.

Lemma raises_update_many {D} (c : Collection D) sel op :
  raises block_error (update_many c sel op).
Proof. unfold update_many. auto 10 with raises. Qed.

Lemma raises_delete_one {D} (c : Collection D) k :
  raises block_error (delete_one c k).
Proof.
  unfold delete_one. do 2 (apply raises_bind; [auto with raises|intros ?]).
  destruct (_ !! k); auto with raises.
Qed.

Lemma raises_insert_one {D} (c : Collection D) k d :
  raises block_error (insert_one c k d).
Proof.
  unfold insert_one. do 2 (apply raises_bind; [auto with raises|intros ?]).
  apply raises_if; [by apply raises_raise; intros c0 d0|auto with raises].
Qed.

#[local] Hint Resolve raises_find_one raises_update_one raises_update_many
  raises_delete_one raises_insert_one : raises.

Lemma raises_start_transaction {A} s (body : M A) :
  raises block_error body → raises block_error (start_transaction s body).
Proof.
  intros Hb w e w'. unfold start_transaction.
  destruct (body w) as [[e1|a] w1] eqn:H1.
  - intros [= <- _]. eauto.
  - destruct (roundtrip w1) as [[e2|[]] w2] eqn:H2; [|discriminate].
    intros [= <- _]. by eapply raises_roundtrip.
Qed.

Lemma raises_add_member_transaction current_user org_id :
  raises block_error (Organizations.add_member_transaction current_user org_id).
Proof.
  unfold Organizations.add_member_transaction.
  apply raises_bind; [auto with raises|intros [o|]]; auto 20 with raises.
Qed.

Lemma raises_delete_organization_transaction current_user org_id :
  raises block_error
    (Organizations.delete_organization_transaction current_user org_id).
Proof.
  unfold Organizations.delete_organization_transaction.
  apply raises_bind; [auto with raises|intros [o|]]; auto 20 with raises.
Qed.

Lemma raises_create_organization_transaction current_user organization new_id :
  raises block_error
    (Organizations.create_organization_transaction current_user organization
       new_id).
Proof.
  unfold Organizations.create_organization_transaction. auto 20 with raises.
Qed.

Lemma raises_create_opportunity_transaction org_id opportunity new_id :
  raises block_error
    (Organizations.create_opportunity_transaction org_id opportunity new_id).
Proof.
  unfold Organizations.create_opportunity_transaction. auto 20 with raises.
Qed.

Lemma raises_is_authorized_user_query org_id user_id :
  raises block_error (Organizations.is_authorized_user_query org_id user_id).
Proof.
  unfold Organizations.is_authorized_user_query.
  apply raises_bind; [auto with raises|intros [o|]]; auto with raises.
Qed.

(** The clause [except Exception] makes an HTTPException of a dict only, and
    gives it the status of the dict. *)
Lemma except_Exception_http_error {A} e w :
  block_error e →
  ∃ e', @Organizations.except_Exception A e w = (inl e', w)
        ∧ no_other_http_error e'.
Proof.
  intros He. unfold Organizations.except_Exception.
  destruct (args0 e) as [e0|[msg|c d]] eqn:Ha.
  - destruct e; try discriminate Ha. injection Ha as <-.
    eexists. split; [done|]. by intros c d.
  - eexists. split; [done|]. by intros c d.
  - destruct e; try discriminate Ha. injection Ha as ->.
    destruct (He c d eq_refl) as (c' & d' & -> & -> & Hc).
    eexists. split; [done|]. intros c0 d0 _. exists c', d'. split; [done|].
    by left.
Qed.

Lemma except_ConnectionFailure_http_error {A} :
  no_other_http_error
    (HTTPException HTTP_500_INTERNAL_SERVER_ERROR
       "Error: Database connection error.")
  ∧ ∀ w, @Organizations.except_ConnectionFailure A w
         = (inl (HTTPException HTTP_500_INTERNAL_SERVER_ERROR
                   "Error: Database connection error."), w).
Proof. split; [|done]. intros c d _. eexists _, _. split; [done|]. by right. Qed.

(** The [except] clauses: what leaves them is no HTTPException, or one of
    the module's. *)
Lemma handlers_http_error {A} e w :
  block_error e →
  ∃ e', @Organizations.handlers A e w = (inl e', w) ∧ no_other_http_error e'.
Proof.
  intros He. destruct (except_Exception_http_error (A:=A) e w He) as (e' & H).
  destruct e; try (by exists e').
  eexists. split; [done|]. apply (except_ConnectionFailure_http_error (A:=A)).
Qed.

Lemma create_organization_handlers_http_error {A} e w :
  block_error e →
  ∃ e', @Organizations.create_organization_handlers A e w = (inl e', w)
        ∧ no_other_http_error e'.
Proof.
  intros He. destruct (except_Exception_http_error (A:=A) e w He) as (e' & H).
  destruct e; try (by exists e').
  - eexists. split; [done|]. apply (except_ConnectionFailure_http_error (A:=A)).
  - eexists. split; [done|]. intros c d _. eexists _, _. split; [done|].
    left. compute_done.
Qed.

(** The session block: what leaves it has gone through the [except]
    clauses. *)
Lemma session_block_raises {A} (body : M A) h w e w' :
  (∀ e w, block_error e → ∃ e', h e w = (inl e', w) ∧ no_other_http_error e') →
  raises block_error body →
  try_assign start_session (λ s, start_transaction s body) h
    Organizations.finally_end_session w = (inl e, w') →
  no_other_http_error e.
Proof.
  intros Hh Hb. unfold try_assign. rewrite start_session_up.
  unfold try_finally, try_except.
  destruct (start_transaction Session body _) as [[e2|a] w2] eqn:Ht.
  - destruct (Hh e2 w2) as (e' & -> & He').
    { by eapply (raises_start_transaction Session body Hb). }
    rewrite finally_end_session_bound. by intros [= <- _].
  - rewrite finally_end_session_bound. discriminate.
Qed.

(** X16.  With a validator that takes the ids, an HTTPException that leaves
    one of the five operations has status 400, 401 or 404, or is the 500
    "Database connection error" of the clause [except ConnectionFailure]:
    the clause [except Exception] makes an HTTPException only of the dicts
    that the operation raised itself, and those carry no other status. *)
Theorem operations_http_statuses
    (validate : list string → result bool) (w : World) :
  (∀ ids, takes validate ids) →
  (∀ current_user org_id e,
     fst (Organizations.delete_organization validate current_user org_id w)
     = inl e → no_other_http_error e)
  ∧ (∀ org_id user_id e,
       fst (Organizations.is_authorized_user validate org_id user_id w) = inl e →
       no_other_http_error e)
  ∧ (∀ current_user org_id e,
       fst (Organizations.add_member validate current_user org_id w) = inl e →
       no_other_http_error e)
  ∧ (∀ current_user organization new_id e,
       fst (Organizations.create_organization validate current_user
              organization new_id w) = inl e →
       no_other_http_error e)
  ∧ (∀ current_user org_id opportunity new_id e,
       fst (Organizations.create_opportunity validate current_user org_id
              opportunity new_id w) = inl e →
       no_other_http_error e).
Proof.
  intros Hv. split; [|split; [|split; [|split]]].
  - intros cu org e. unfold Organizations.delete_organization.
    rewrite run_validated. destruct (Hv [org; cu]) as [b ->].
    unfold try_except.
    match goal with
    | |- context [match ?c w with _ => _ end] =>
        destruct (c w) as [[e1|a] w1] eqn:Hb; [|discriminate]
    end.
    destruct (handlers_http_error (A:=Organizations.Response) e1 w1)
      as (e' & -> & He').
    { revert Hb. apply raises_bind; [unfold start_session; auto with raises|].
      intros s. apply raises_start_transaction.
      apply raises_delete_organization_transaction. }
    by intros [= <-].
  - intros org u e. unfold Organizations.is_authorized_user.
    rewrite run_validated. destruct (Hv [org; u]) as [b ->].
    unfold try_finally, try_except.
    destruct (Organizations.is_authorized_user_query org u w)
      as [[e1|a] w1] eqn:Hb; [|discriminate].
    destruct (handlers_http_error (A:=unit) e1 w1) as (e' & -> & He').
    { by eapply raises_is_authorized_user_query. }
    by intros [= <-].
  - intros cu org e. unfold Organizations.add_member.
    rewrite run_validated. destruct (Hv [org; cu]) as [b ->].
    destruct (try_assign _ _ _ _ w) as [r w'] eqn:Hb. simpl. intros ->.
    revert Hb. apply session_block_raises.
    + intros e0 w0 He0. by apply handlers_http_error.
    + apply raises_add_member_transaction.
  - intros cu p i e. unfold Organizations.create_organization.
    rewrite run_validated. destruct (Hv [cu]) as [b ->].
    destruct (try_assign _ _ _ _ w) as [r w'] eqn:Hb. simpl. intros ->.
    revert Hb. apply session_block_raises.
    + intros e0 w0 He0. by apply create_organization_handlers_http_error.
    + apply raises_create_organization_transaction.
  - intros cu org p i e. unfold Organizations.create_opportunity.
    rewrite run_validated. destruct (Hv [cu; org]) as [b ->].
    destruct (try_assign _ _ _ _ w) as [r w'] eqn:Hb. simpl. intros ->.
    revert Hb. apply session_block_raises.
    + intros e0 w0 He0. by apply handlers_http_error.
    + apply raises_create_opportunity_transaction.
Qed.

Lemma operations_http_statuses_witness :
  fst (Organizations.add_member accepting "U2" "O9" world_users)
  = inl (HTTPException HTTP_404_NOT_FOUND "Error: Organization not found.")
  ∧ http_error (HTTPException HTTP_404_NOT_FOUND "Error: Organization not found.").
Proof.
  split; [reflexivity|].
  destruct (operations_http_statuses accepting world_users)
    as (_ & _ & Hadd & _); [by exists false|].
  exact (Hadd "U2" "O9" _ eq_refl _ _ eq_refl).
Defined.



(** * Further properties of the middleware *)

(** X18.  The exempt list is the public list and (POST, /users): every
    public endpoint passes check_authorization, with or without a user id,
    and nothing is touched. *)
Theorem public_endpoints_are_exempt
    (validate : list string → result bool)
    (Users_is_authorized_user : string → M unit)
    (current_user : option string) (request_path request_method : string)
    (w : World) :
  Middlewares.is_unauthorized_endpoint request_path request_method
  = Middlewares.is_public_endpoint request_path request_method
    || (String.eqb request_path "/users" && String.eqb request_method "POST")
  ∧ (Middlewares.is_public_endpoint request_path request_method = true →
     Middlewares.check_authorization validate Users_is_authorized_user
       current_user request_path request_method w = (inr tt, w)).
Proof.
  assert (Middlewares.is_unauthorized_endpoint request_path request_method
          = Middlewares.is_public_endpoint request_path request_method
            || (String.eqb request_path "/users"
                && String.eqb request_method "POST")) as Heq.
  { unfold Middlewares.is_unauthorized_endpoint, Middlewares.is_public_endpoint,
      Middlewares.UNAUTHORIZED_ENDPOINTS, Middlewares.PUBLIC_ENDPOINTS.
    apply eq_true_iff_eq.
    rewrite orb_true_iff, andb_true_iff, !String.eqb_eq, !bool_decide_eq_true.
    rewrite !elem_of_cons, !elem_of_nil, !pair_eq. tauto. }
  split; [done|]. intros Hp. apply check_authorization_exempt.
  by rewrite Heq, Hp.
Qed.

Lemma public_endpoints_are_exempt_witness :
  Middlewares.check_authorization accepting (λ _, mret tt) None "/auth/login"
    "POST" world_acme = (inr tt, world_acme).
Proof.
  destruct (public_endpoints_are_exempt accepting (λ _, mret tt) None
              "/auth/login" "POST" world_acme) as [_ H].
  exact (H eq_refl).
Defined.

(** A string without the separator is one piece. *)
Lemma split_one_piece sep s : has_char sep s = false → split sep s = [s].
Proof.
  induction s as [|c s IH]; simpl; [done|]. intros H.
  apply orb_false_iff in H as [-> H]. by rewrite IH.
Qed.

Section Tokens.
Variable validate : list string → result bool.
Variable decode : string → result (gmap string (option string)).

(** authentication_handler reads the second piece of the header only. *)
Lemma authentication_handler_second_piece t t' :
  split " " t !! 1%nat = split " " t' !! 1%nat →
  Middlewares.authentication_handler validate decode (Some t)
  = Middlewares.authentication_handler validate decode (Some t').
Proof.
  intros H. unfold Middlewares.authentication_handler,
    Middlewares.authentication_handler_block. simpl. unfold index.
  by rewrite H.
Qed.

End Tokens.

(** X19.  authentication_handler decodes the second piece of the header,
    split at single spaces, and looks at nothing else: any word, "Bearer"
    or not, may stand before the token, and what follows a second space is
    ignored. *)
Theorem authentication_handler_ignores_scheme
    (validate : list string → result bool)
    (decode : string → result (gmap string (option string)))
    (scheme bearer rest : string) :
  has_char " " scheme = false →
  has_char " " bearer = false →
  let auth := Middlewares.authentication_handler validate decode in
  auth (Some (scheme +:+ " " +:+ bearer)) = auth (Some ("Bearer " +:+ bearer))
  ∧ auth (Some (scheme +:+ " " +:+ bearer +:+ " " +:+ rest))
    = auth (Some ("Bearer " +:+ bearer)).
Proof.
  intros Hs Hb auth.
  assert (split " " ("Bearer " +:+ bearer) !! 1%nat = Some bearer) as Href.
  { change ("Bearer " +:+ bearer) with ("Bearer" +:+ String " " bearer).
    rewrite (split_app " " "Bearer") by reflexivity.
    by rewrite split_one_piece. }
  split; apply authentication_handler_second_piece; rewrite Href.
  - change (scheme +:+ " " +:+ bearer) with (scheme +:+ String " " bearer).
    rewrite split_app by done. by rewrite split_one_piece.
  - change (scheme +:+ " " +:+ bearer +:+ " " +:+ rest)
      with (scheme +:+ String " " (bearer +:+ String " " rest)).
    rewrite split_app by done. by rewrite split_app.
Qed.

Lemma authentication_handler_ignores_scheme_witness :
  Middlewares.authentication_handler accepting decode_one
    (Some "Basic good trailing") = inr "U1".
Proof.
  destruct (authentication_handler_ignores_scheme accepting decode_one
              "Basic" "good" "trailing" eq_refl eq_refl) as [_ H].
  exact H.
Defined.

(** X20.  check_authorization writes no data: if the activated-user check
    of the users module writes none, the data are the same after every
    call, whatever it returned or raised. *)
Theorem check_authorization_writes_nothing
    (validate : list string → result bool)
    (Users_is_authorized_user : string → M unit)
    (current_user : option string) (request_path request_method : string)
    (w : World) :
  (∀ u, readonly (Users_is_authorized_user u)) →
  db (snd (Middlewares.check_authorization validate Users_is_authorized_user
             current_user request_path request_method w)) = db w.
Proof.
  intros Hu. unfold Middlewares.check_authorization.
  destruct (Middlewares.is_unauthorized_endpoint _ _); [done|].
  destruct current_user as [u|]; [|done].
  rewrite run_bind.
  assert (∀ w0 r w1,
            (if Middlewares.activation_route request_path request_method
             then try_except (Users_is_authorized_user u)
                    (λ _, raise (Exception (ArgStr
                       "User is not authorized to access this resource, please activate your account.")))
             else mret tt) w0 = (r, w1) → db w1 = db w0) as H1.
  { intros w0 r w1. destruct (Middlewares.activation_route _ _).
    - unfold try_except.
      destruct (Users_is_authorized_user u w0) as [[e|[]] w2] eqn:Hc;
        apply Hu in Hc; by intros [= <- <-].
    - by intros [= <- <-]. }
  match goal with
  | |- context [match ?c w with _ => _ end] =>
      destruct (c w) as [[e|[]] w1] eqn:Hc1; apply H1 in Hc1; [done|]
  end.
  rewrite run_bind.
  destruct (Middlewares.opportunities_route _ _); [|done].
  unfold try_except. rewrite run_bind. unfold lift.
  destruct (index _ 2) as [e|organization_id]; [done|].
  destruct (Organizations.is_authorized_user validate organization_id u w1)
    as [[e|[]] w2] eqn:Hc2; apply readonly_is_authorized_user in Hc2; simpl;
    congruence.
Qed.

Lemma check_authorization_writes_nothing_witness :
  db (snd (Middlewares.check_authorization accepting (λ _, mret tt) (Some "U2")
             "/organizations/O1/opportunities" "POST" world_acme))
  = db world_acme.
Proof.
  apply (check_authorization_writes_nothing accepting (λ _, mret tt)).
  intros u w r w' [= <- <-]. reflexivity.
Defined.

(** The path of the opportunities of an organization whose id has no "/". *)
Lemma opportunities_path id :
  has_char "/" id = false →
  let p := "/organizations/" +:+ id +:+ "/opportunities" in
  Middlewares.is_unauthorized_endpoint p "POST" = false
  ∧ Middlewares.opportunities_route p "POST" = true
  ∧ split "/" p !! 2%nat = Some id.
Proof.
  intros Hid p. split; [|split].
  - unfold Middlewares.is_unauthorized_endpoint,
      Middlewares.UNAUTHORIZED_ENDPOINTS.
    apply bool_decide_eq_false. rewrite !elem_of_cons, elem_of_nil, !pair_eq.
    subst p. simpl. intros H.
    repeat (destruct H as [[H _]|H]; [discriminate H|]). done.
  - unfold Middlewares.opportunities_route. subst p.
    apply andb_true_iff. split; [reflexivity|].
    apply andb_true_iff. split; [reflexivity|]. apply endswith_app_r.
  - subst p.
    change ("/organizations/" +:+ id +:+ "/opportunities")
      with (String "/" ("organizations" +:+ String "/"
                          (id +:+ String "/" "opportunities"))).
    change (split "/" (String "/" ?s)) with (EmptyString :: split "/" s).
    rewrite (split_app "/" "organizations") by reflexivity.
    rewrite (split_app "/" id) by done. reflexivity.
Qed.

(** X21.  After create_organization returned, the authorization check lets
    exactly the creator post to the opportunities of the new organization:
    POST /organizations/{new id}/opportunities passes check_authorization
    for the owner and for no other user (ids without "/", validator taking
    the ids, connection up at the check). *)
Theorem creator_alone_may_post_opportunities
    (validate : list string → result bool)
    (Users_is_authorized_user : string → M unit)
    (owner user : string) (payload : OrganizationBaseSchema) (new_id : string)
    (w : World) (resp : Organizations.Response) :
  fst (Organizations.create_organization validate owner payload new_id w)
  = inr resp →
  let w' := snd (Organizations.create_organization validate owner payload
                   new_id w) in
  outage w' = None →
  (∀ ids, takes validate ids) →
  has_char "/" new_id = false →
  fst (Middlewares.check_authorization validate Users_is_authorized_user
         (Some user) ("/organizations/" +:+ new_id +:+ "/opportunities") "POST"
         w') = inr tt
  ↔ user = owner.
Proof.
  intros Hr w' Hup Hv Hid. subst w'.
  destruct (Organizations.create_organization validate owner payload new_id w)
    as [r w'] eqn:Hrun. simpl in *. subst r.
  apply create_organization_returns in Hrun as (u & _ & _ & _ & Hd).
  destruct (opportunities_path new_id Hid) as (Hx & Ho & Hp).
  rewrite (check_authorization_opportunities validate Users_is_authorized_user
             user _ "POST" w' new_id Hx Ho Hp).
  destruct (Hv [new_id; user]) as [b Hb].
  rewrite (is_authorized_user_up validate new_id user w' b Hb Hup), Hd. simpl.
  rewrite lookup_insert_eq. simpl.
  case_bool_decide as Hin; simpl.
  - apply list_elem_of_singleton in Hin. done.
  - split; [done|]. intros ->. exfalso. apply Hin.
    by apply list_elem_of_singleton.
Qed.

Lemma creator_alone_may_post_opportunities_witness :
  let w' := snd (Organizations.create_organization accepting "U1" beta "O1"
                   world_users) in
  fst (Middlewares.check_authorization accepting (λ _, mret tt) (Some "U1")
         "/organizations/O1/opportunities" "POST" w') = inr tt
  ∧ fst (Middlewares.check_authorization accepting (λ _, mret tt) (Some "U2")
           "/organizations/O1/opportunities" "POST" w') ≠ inr tt.
Proof.
  intros w'. split.
  - apply (creator_alone_may_post_opportunities accepting (λ _, mret tt)
             "U1" "U1" beta "O1" world_users _ eq_refl eq_refl);
      [by exists false|reflexivity|reflexivity].
  - intros H.
    apply (creator_alone_may_post_opportunities accepting (λ _, mret tt)
             "U1" "U2" beta "O1" world_users _ eq_refl eq_refl) in H;
      [discriminate H|by exists false|reflexivity].
Defined.

(** * Properties of the websocket endpoint *)

Lemma receive_loop_texts (texts : list string) (rest : list Ws.received) :
  Ws.receive_loop ((Ws.Text <$> texts) ++ rest)%list = Ws.receive_loop rest.
Proof. induction texts as [|t texts IH]; [done|exact IH]. Qed.

(** X22.  websocket_endpoint ignores every text it receives.  When a receive
    raises WebSocketDisconnect or another Exception, it calls disconnect
    once, after connect and for the connected user, whatever was received
    before and whatever would follow; when the task is cancelled in a
    receive, or connect raises, or the scope has no current_user, it leaves
    without calling disconnect; and while only texts arrive it stays
    connected. *)
Theorem websocket_endpoint_disconnects_once
    (connect_raises disconnect_raises : string → option exn)
    (scope : gmap string string) (current_user : string)
    (texts : list string) (rest : list Ws.received) :
  scope !! "current_user" = Some current_user →
  connect_raises current_user = None →
  let endpoint := Ws.websocket_endpoint connect_raises disconnect_raises scope in
  let before : list Ws.received := Ws.Text <$> texts in
  (∀ code,
     fst (endpoint (before ++ Ws.Raises (Ws.WebSocketDisconnect code) :: rest)%list)
     = [Ws.connect current_user; Ws.disconnect current_user])
  ∧ (∀ e,
       fst (endpoint (before ++ Ws.Raises (Ws.OtherException e) :: rest)%list)
       = [Ws.connect current_user; Ws.disconnect current_user])
  ∧ endpoint (before ++ Ws.Raises Ws.Cancelled :: rest)%list
    = ([Ws.connect current_user], Ws.RaisedCancelled)
  ∧ endpoint before = ([Ws.connect current_user], Ws.Receiving)
  ∧ (∀ incoming e,
       Ws.websocket_endpoint (λ _, Some e) disconnect_raises scope incoming
       = ([Ws.connect current_user], Ws.Raised e))
  ∧ (∀ incoming,
       Ws.websocket_endpoint connect_raises disconnect_raises ∅ incoming
       = ([], Ws.Raised (KeyError "current_user"))).
Proof.
  intros Hs Hc endpoint before. subst endpoint before.
  unfold Ws.websocket_endpoint. rewrite Hs, Hc.
  repeat split; intros; rewrite ?receive_loop_texts; try done.
  rewrite <- (app_nil_r (Ws.Text <$> texts)), receive_loop_texts. done.
Qed.

Lemma websocket_endpoint_disconnects_once_witness :
  fst (Ws.websocket_endpoint (λ _, None) (λ _, None)
         {[ "current_user" := "U1" ]}
         [Ws.Text "ping"; Ws.Text "pong";
          Ws.Raises (Ws.WebSocketDisconnect 1000); Ws.Text "late"])
  = [Ws.connect "U1"; Ws.disconnect "U1"].
Proof.
  destruct (websocket_endpoint_disconnects_once (λ _, None) (λ _, None)
              {[ "current_user" := "U1" ]} "U1" ["ping"; "pong"]
              [Ws.Text "late"]) as [H _];
    [vm_compute; reflexivity|reflexivity|].
  exact (H 1000).
Defined.

(** * Sessions over many calls *)

Lemma create_organization_up (validate : list string → result bool)
    owner payload new_id w b :
  validate [owner] = inr b →
  outage w = None →
  outage (snd (Organizations.create_organization validate owner payload
                 new_id w)) = None.
Proof.
  intros Hv Hup. unfold Organizations.create_organization.
  rewrite run_validated, Hv.
  unfold try_assign, try_finally, try_except, start_transaction,
    Organizations.create_organization_transaction.
  rewrite start_session_up by done.
  rewrite run_bind, insert_one_up by done.
  destruct (_ || _); simpl; [done|].
  rewrite run_bind, update_one_up by done. simpl.
  destruct (Users_docs (db w) !! owner) as [u|]; simpl; [|done].
  by rewrite roundtrip_up.
Qed.

(** With the connection up, a call keeps it up, and leaves one more session
    live exactly when it is a delete_organization. *)
Lemma after_sessions (validate : list string → result bool) c w :
  (∀ ids, takes validate ids) →
  outage w = None →
  outage (after validate c w) = None
  ∧ live_sessions (after validate c w)
    = (live_sessions w + deletions [c])%nat.
Proof.
  intros Hv Hup. destruct c as [u p i|u o p i|o u|u o|u o]; simpl.
  - destruct (Hv [u]) as [b Hb]. split.
    + by apply (create_organization_up validate u p i w b).
    + rewrite balanced_create_organization. lia.
  - destruct (Hv [u; o]) as [b Hb]. split.
    + rewrite (create_opportunity_up validate _ _ _ _ w b Hb Hup). simpl.
      destruct (Opportunities_docs (db w) !! i); [done|].
      by destruct (Organizations_docs (db w) !! o).
    + rewrite balanced_create_opportunity. lia.
  - destruct (Hv [o; u]) as [b Hb]. split.
    + rewrite (is_authorized_user_up validate _ _ w b Hb Hup).
      destruct (Organizations_docs (db w) !! o) as [org|]; [|done].
      by destruct (bool_decide _).
    + rewrite balanced_is_authorized_user. lia.
  - destruct (Hv [o; u]) as [b Hb]. split.
    + rewrite (add_member_up validate _ _ w b Hb Hup).
      destruct (Organizations_docs (db w) !! o) as [org|]; [|done].
      destruct (bool_decide _); [done|]. destruct (Org.private org); [done|].
      by destruct (Users_docs (db w) !! u).
    + rewrite balanced_add_member. lia.
  - destruct (Hv [o; u]) as [b Hb].
    rewrite (delete_organization_up validate _ _ w b Hb Hup).
    destruct (Organizations_docs (db w) !! o) as [org|]; simpl; [|split; [done|lia]].
    destruct (negb _); simpl; [split; [done|lia]|].
    destruct (Nat.eqb _ 0); simpl; split; (done || lia).
Qed.

(** X23.  With the connection up and a validator that takes the ids, the
    sessions that are started and never ended grow by one with every call
    of delete_organization, successful or not, and with no other call:
    after a sequence of calls there are as many more as it has deletions. *)
Theorem live_sessions_count_deletions
    (validate : list string → result bool) (cs : list call) (w : World) :
  (∀ ids, takes validate ids) →
  outage w = None →
  live_sessions (after_all validate cs w)
  = (live_sessions w + deletions cs)%nat.
Proof.
  intros Hv. revert w. induction cs as [|c cs IH]; intros w Hup.
  - simpl. lia.
  - destruct (after_sessions validate c w Hv Hup) as [Hup' Hl].
    change (after_all validate (c :: cs) w)
      with (after_all validate cs (after validate c w)).
    rewrite (IH _ Hup'), Hl. destruct c; simpl; lia.
Qed.

Lemma live_sessions_count_deletions_witness :
  live_sessions
    (after_all accepting
       (story ++ [DeleteOrganization "U2" "O1"; DeleteOrganization "U1" "O1";
                  DeleteOrganization "U1" "O1"])
       world_users) = 3%nat.
Proof.
  exact (live_sessions_count_deletions accepting
           (story ++ [DeleteOrganization "U2" "O1"; DeleteOrganization "U1" "O1";
                      DeleteOrganization "U1" "O1"])
           world_users ltac:(by exists false) eq_refl).
Defined.
